(** * lockc: the in-kernel policy engine (BPF programs), shallow embedding

    Sources embedded here:
    - [lockc/src/bpf/lockc.bpf.c]: [get_policy_level], [check_paths] and the
      LSM programs [syslog_audit], [mount_audit], [setuid_audit], [open_audit];
    - the older single-file program of the repository: [handle_new_process],
      and in [Module Prototype] its entry points [sched_process_fork] and
      [clone_audit], [hash], and the path buffer code [prepend_name],
      [dentry_full_path] and [mount_audit];
    - [map_structs.h], [maps.h], [limits.h], the policy enum.

    Integers of the C code are [Z]; byte buffers are [list byte], read with
    [byte_at], which yields NUL past the end of the list, so that a list
    stands for the zero-padded array it starts.  BPF hash maps are [gmap]s. *)

From Stdlib Require Import ZArith Lia Strings.Byte String.
From stdpp Require Import gmap list.

Local Open Scope Z_scope.

(** ** Constants *)

Definition EPERM : Z := 1.
Definition E2BIG : Z := 7.
Definition EFAULT : Z := 14.
Definition EINVAL : Z := 22.
Definition ENAMETOOLONG : Z := 36.

(* limits.h *)
Definition PID_MAX_LIMIT : Z := 4194304.
Definition PATH_LEN : nat := 64.
Definition PATH_MAX_LIMIT : Z := 128.
Definition TASK_COMM_LEN : nat := 16.

(* lockc.bpf.c *)
Definition MOUNT_TYPE_LEN : nat := 5.
Definition MOUNT_TYPE_BIND : list byte := list_byte_of_string "bind".

Definition NUL : byte := x00.

(** ** Data model *)

Inductive container_policy_level : Set :=
| POLICY_LEVEL_LOOKUP_ERR   (* -2 *)
| POLICY_LEVEL_NOT_FOUND    (* -1 *)
| POLICY_LEVEL_RESTRICTED
| POLICY_LEVEL_BASELINE
| POLICY_LEVEL_PRIVILEGED.

Record container := { policy_level : container_policy_level }.

Record process := { container_id : N }.

Record accessed_path := { path : list byte }.

(** The BPF maps.  The programs name the path maps [ap_mnt_restr],
    [ap_mnt_base], [ap_acc_restr], [ap_acc_base] and [dp_acc_base]; maps.h
    declares them as [allowed_paths_mount_restricted],
    [allowed_paths_mount_baseline], [allowed_paths_access_restricted],
    [allowed_paths_access_baseline] and [denied_paths_access_baseline].
    [dp_acc_restr] is maps.h's [denied_paths_access_restricted]; no program
    reads it. *)
Record bpf_maps := {
  runtimes : gmap N N;
  containers : gmap N container;
  processes : gmap Z process;
  ap_mnt_restr : gmap N accessed_path;
  ap_mnt_base : gmap N accessed_path;
  ap_acc_restr : gmap N accessed_path;
  ap_acc_base : gmap N accessed_path;
  dp_acc_restr : gmap N accessed_path;
  dp_acc_base : gmap N accessed_path
}.

Record task_struct := { pid : Z; comm : list byte }.

(** [kuid_t]: an unsigned 32-bit user id. *)
Record cred := { uid : N }.

(** A [const char *] handed to a hook by the kernel: NULL, an address that
    cannot be read, or the address of a string. *)
Inductive kernel_str :=
| NULL
| Unreadable
| Str (s : list byte).

(** [struct file]: the absolute path the kernel renders for [f_path], [None]
    when it cannot render one. *)
Record file := { f_path : option (list byte) }.

(** What the helpers report about the running task: the value of
    [bpf_get_current_pid_tgid] (tgid in the upper 32 bits) and the return
    value of [bpf_get_current_comm]. *)
Record current_task := { pid_tgid : Z; get_current_comm : Z }.

(** ** Buffers and kernel helpers *)

Definition byte_at (s : list byte) (i : nat) : byte := nth i s NUL.

(** The bytes of a C string: everything before the first NUL. *)
Fixpoint c_content (s : list byte) : list byte :=
  match s with
  | [] => []
  | b :: s' => if Byte.eqb b NUL then [] else b :: c_content s'
  end.

(** Writing [src] at the start of the array [dst]. *)
Definition overwrite (dst src : list byte) : list byte :=
  src ++ drop (length src) dst.

(** [bpf_probe_read_kernel_str(dst, size, unsafe_ptr)]: copies at most
    [size - 1] bytes of the string and terminates them with NUL; returns the
    number of bytes written, or a negative error.  The rest of [dst] keeps
    what it held. *)
Definition bpf_probe_read_kernel_str (dst : list byte) (size : nat)
    (unsafe_ptr : kernel_str) : Z * list byte :=
  match unsafe_ptr with
  | Str s =>
      let body := take (size - 1) (c_content s) in
      (Z.of_nat (length body + 1), overwrite dst (body ++ [NUL]))
  | _ => (- EFAULT, dst)
  end.

(** [bpf_d_path(path, buf, sz)]: the NUL-terminated path in [buf] and its
    length with the NUL, or a negative error when there is no path or it does
    not fit. *)
Definition bpf_d_path (p : option (list byte)) (buf : list byte) (sz : nat)
    : Z * list byte :=
  match p with
  | None => (- EINVAL, buf)
  | Some s =>
      let body := c_content s in
      if (sz <? length body + 1)%nat then (- ENAMETOOLONG, buf)
      else (Z.of_nat (length body + 1), overwrite buf (body ++ [NUL]))
  end.

(** [(pid_t)(bpf_get_current_pid_tgid() >> 32)]: the upper half of the u64,
    converted to a signed 32-bit [pid_t]. *)
Definition to_s32 (z : Z) : Z :=
  let m := z mod 2 ^ 32 in if m <? 2 ^ 31 then m else m - 2 ^ 32.

Definition current_pid (cur : current_task) : Z :=
  to_s32 (Z.shiftr (pid_tgid cur) 32).

(** [bpf_map_update_elem(map, key, value, BPF_ANY)] on a hash map of
    [max_entries] rows: an existing row is replaced, a new row is refused
    with -E2BIG when the map is full. *)
Definition bpf_map_update_elem `{Countable K} {V} (max_entries : Z)
    (m : gmap K V) (key : K) (value : V) : Z * gmap K V :=
  match m !! key with
  | Some _ => (0, <[key := value]> m)
  | None =>
      if max_entries <=? Z.of_nat (size m) then (- E2BIG, m)
      else (0, <[key := value]> m)
  end.

(** [bpf_for_each_map_elem(map, callback_fn, callback_ctx, 0)]: the callback
    runs on the rows of the map, in the map's order, until it returns
    non-zero; it updates the context through its pointer. *)
Fixpoint for_each_elem {V C} (callback_fn : N -> option V -> C -> Z * C)
    (rows : list (N * V)) (ctx : C) : C :=
  match rows with
  | [] => ctx
  | (k, v) :: rest =>
      let '(r, ctx') := callback_fn k (Some v) ctx in
      if r =? 0 then for_each_elem callback_fn rest ctx' else ctx'
  end.

Definition bpf_for_each_map_elem {V C} (m : gmap N V)
    (callback_fn : N -> option V -> C -> Z * C) (ctx : C) : C :=
  for_each_elem callback_fn (map_to_list m) ctx.

(** ** strutils.h *)

(** Modelled from the spec: strutils.h ([strlen], [strcmp]) is not among the
    sources.  [strlen s max_len] is the entry's effective length: the bytes
    up to the first NUL, bounded by [max_len]. *)
Fixpoint strlen (s : list byte) (max_len : nat) : nat :=
  match max_len with
  | O => O
  | S n =>
      match s with
      | [] => O
      | b :: s' => if Byte.eqb b NUL then O else S (strlen s' n)
      end
  end.

(** Modelled from the spec: strutils.h ([strlen], [strcmp]) is not among the
    sources.  [strcmp s1 s2 n] compares the first [n] bytes one by one and is
    0 exactly when they are equal. *)
Fixpoint strcmp (s1 s2 : list byte) (n : nat) : Z :=
  match n with
  | O => 0
  | S n' =>
      let c1 := hd NUL s1 in
      let c2 := hd NUL s2 in
      if Byte.eqb c1 c2 then strcmp (tl s1) (tl s2) n'
      else Z.of_N (Byte.to_N c1) - Z.of_N (Byte.to_N c2)
  end.

(** ** Policy resolver *)

Definition get_policy_level (m : bpf_maps) (pid : Z) : container_policy_level :=
  match processes m !! pid with
  | None => POLICY_LEVEL_NOT_FOUND
  | Some p =>
      match containers m !! container_id p with
      | None => POLICY_LEVEL_LOOKUP_ERR
      | Some c => policy_level c
      end
  end.

(** ** Path matcher *)

Record paths_callback_ctx := { ctx_path : list byte; found : bool }.

Definition check_paths (key : N) (allowed_path : option accessed_path)
    (data : paths_callback_ctx) : Z * paths_callback_ctx :=
  match allowed_path with
  | None => (0, data)
  | Some ap =>
      let allowed_path_len := strlen (path ap) PATH_LEN in
      if (allowed_path_len <? 1)%nat then (0, data)
      else if strcmp (path ap) (ctx_path data) allowed_path_len =? 0
      then (1, {| ctx_path := ctx_path data; found := true |})
      else (0, data)
  end.

(** One scan of a paths table for the probe, as every handler runs it:
    [cb.found = false], then [bpf_for_each_map_elem(&table, check_paths, &cb, 0)],
    then the test of [cb.found]. *)
Definition match_paths (table : gmap N accessed_path) (probe : list byte) : bool :=
  found (bpf_for_each_map_elem table check_paths
           {| ctx_path := probe; found := false |}).

(** ** LSM programs *)

(** The code at the label [out]. *)
Definition out (ret_prev ret : Z) : Z :=
  if negb (ret_prev =? 0) then ret_prev else ret.

Definition syslog_audit (m : bpf_maps) (cur : current_task) (type : Z)
    (ret_prev : Z) : Z :=
  let policy_level := get_policy_level m (current_pid cur) in
  out ret_prev
    match policy_level with
    | POLICY_LEVEL_LOOKUP_ERR => - EPERM
    | POLICY_LEVEL_NOT_FOUND => 0
    | POLICY_LEVEL_RESTRICTED => - EPERM
    | POLICY_LEVEL_BASELINE => - EPERM
    | POLICY_LEVEL_PRIVILEGED => 0
    end.

(** [type_safe] and [dev_name_safe] are what the two uninitialised stack
    buffers hold on entry.  The destination [path] and [data] are not read. *)
Definition mount_audit (m : bpf_maps) (cur : current_task)
    (type_safe dev_name_safe : list byte)
    (dev_name : kernel_str) (type : kernel_str) (flags : Z) (ret_prev : Z) : Z :=
  let policy_level := get_policy_level m (current_pid cur) in
  let type_bind := MOUNT_TYPE_BIND ++ [NUL] in
  out ret_prev
    match policy_level with
    | POLICY_LEVEL_LOOKUP_ERR => - EPERM
    | POLICY_LEVEL_NOT_FOUND => 0
    | POLICY_LEVEL_PRIVILEGED => 0
    | POLICY_LEVEL_RESTRICTED | POLICY_LEVEL_BASELINE =>
        match type with
        | NULL => 0
        | _ =>
            let '(r, type_safe) :=
              bpf_probe_read_kernel_str type_safe MOUNT_TYPE_LEN type in
            if r <? 0 then - EFAULT
            else if negb (strcmp type_safe type_bind MOUNT_TYPE_LEN =? 0) then 0
            else
              match dev_name with
              | NULL => - EFAULT
              | _ =>
                  let '(r, dev_name_safe) :=
                    bpf_probe_read_kernel_str dev_name_safe PATH_LEN dev_name in
                  if r <? 0 then - EFAULT
                  else
                    match policy_level with
                    | POLICY_LEVEL_RESTRICTED =>
                        if match_paths (ap_mnt_restr m) dev_name_safe then 0
                        else - EPERM
                    | POLICY_LEVEL_BASELINE =>
                        if match_paths (ap_mnt_base m) dev_name_safe then 0
                        else - EPERM
                    | _ => - EPERM
                    end
              end
        end
    end.

Definition setuid_audit (m : bpf_maps) (cur : current_task)
    (new old : cred) (flags : Z) (ret_prev : Z) : Z :=
  let policy_level := get_policy_level m (current_pid cur) in
  if get_current_comm cur <? 0 then - EFAULT
  else
    let uid_old := uid old in
    let uid_new := uid new in
    out ret_prev
      match policy_level with
      | POLICY_LEVEL_LOOKUP_ERR => - EPERM
      | POLICY_LEVEL_NOT_FOUND => 0
      | POLICY_LEVEL_PRIVILEGED => 0
      | POLICY_LEVEL_RESTRICTED | POLICY_LEVEL_BASELINE =>
          if (uid_new =? 0)%N && (1000 <=? uid_old)%N then - EPERM else 0
      end.

Definition open_audit (m : bpf_maps) (cur : current_task) (f : file)
    (ret_prev : Z) : Z :=
  let policy_level := get_policy_level m (current_pid cur) in
  let d_path_buf := repeat NUL PATH_LEN in
  out ret_prev
    match policy_level with
    | POLICY_LEVEL_LOOKUP_ERR => - EPERM
    | POLICY_LEVEL_NOT_FOUND => 0
    | POLICY_LEVEL_PRIVILEGED => 0
    | POLICY_LEVEL_RESTRICTED | POLICY_LEVEL_BASELINE =>
        let '(r, d_path_buf) := bpf_d_path (f_path f) d_path_buf PATH_LEN in
        if r <? 0 then 0
        else if strcmp d_path_buf (list_byte_of_string "/" ++ [NUL]) 2 =? 0 then 0
        else
          match policy_level with
          | POLICY_LEVEL_RESTRICTED =>
              if match_paths (ap_acc_restr m) d_path_buf then - EPERM
              else if match_paths (ap_acc_restr m) d_path_buf then 0
              else - EPERM
          | POLICY_LEVEL_BASELINE =>
              if match_paths (dp_acc_base m) d_path_buf then - EPERM
              else if match_paths (ap_acc_base m) d_path_buf then 0
              else - EPERM
          | _ => - EPERM
          end
    end.

(** ** Lineage tracker *)

Definition handle_new_process (m : bpf_maps) (parent child : task_struct)
    : Z * bpf_maps :=
  let ppid := pid parent in
  let pid := pid child in
  match processes m !! ppid with
  | None => (0, m)
  | Some parent_lookup =>
      match processes m !! pid with
      | Some _ => (0, m)
      | None =>
          let container_id := container_id parent_lookup in
          match containers m !! container_id with
          | None => (- EPERM, m)
          | Some _ =>
              let new_p := {| container_id := container_id |} in
              let '(err, procs) :=
                bpf_map_update_elem PID_MAX_LIMIT (processes m) pid new_p in
              if err <? 0 then (err, m)
              else
                (0, {| runtimes := runtimes m;
                       containers := containers m;
                       processes := procs;
                       ap_mnt_restr := ap_mnt_restr m;
                       ap_mnt_base := ap_mnt_base m;
                       ap_acc_restr := ap_acc_restr m;
                       ap_acc_base := ap_acc_base m;
                       dp_acc_restr := dp_acc_restr m;
                       dp_acc_base := dp_acc_base m |})
          end
      end
  end.

(** ** The older single-file program: entry points, [hash], path buffer *)

Definition PATH_MAX : Z := 4096.

Module Prototype.

Section Hash.
(** The value a [char] takes in an integer expression; whether [char] is
    signed is the platform's choice. *)
Variable char_val : byte → Z.

(** The loop of [hash], from the accumulator [hash]: [u32] addition. *)
Fixpoint hash_loop (hash : Z) (str : list byte) (len : nat) : Z :=
  match len with
  | O => hash
  | S n =>
      let c := hd NUL str in
      if Byte.eqb c NUL then hash
      else hash_loop ((hash + char_val c) mod 2 ^ 32) (tl str) n
  end.

Definition hash (str : list byte) (len : nat) : Z := hash_loop 0 str len.
End Hash.

(** [sched_process_fork]: the two tasks of the tracepoint, either may be
    NULL. *)
Definition sched_process_fork (m : bpf_maps) (parent child : option task_struct)
    : Z * bpf_maps :=
  match parent, child with
  | Some parent, Some child => handle_new_process m parent child
  | _, _ => (- EPERM, m)
  end.

(** [clone_audit]: [real_parent] is what [BPF_CORE_READ(task, real_parent)]
    yields. *)
Definition clone_audit (m : bpf_maps) (task : task_struct)
    (real_parent : option task_struct) (clone_flags : Z) (ret_prev : Z)
    : Z * bpf_maps :=
  match real_parent with
  | None => (- EPERM, m)
  | Some parent =>
      let '(ret, m') := handle_new_process m parent task in
      (out ret_prev ret, m')
  end.

(** [struct qstr]: [len] is a [u32]. *)
Record qstr := { name : list byte; len : Z }.

(** [struct dentry], as far as the program reads it: its own address, the
    address in [d_parent], and [d_name]. *)
Record dentry := { d_addr : Z; d_parent : Z; d_name : qstr }.

(** [bpf_map_update_elem] on an array map of [max_entries] slots: an index
    past the end is refused with -E2BIG. *)
Definition array_update (max_entries : Z) (arr : gmap Z byte) (key : Z)
    (value : byte) : Z * gmap Z byte :=
  if max_entries <=? key then (- E2BIG, arr) else (0, <[key := value]> arr).

(** The [while (len--)] loop of [prepend_name]; past its stored bytes the
    name reads as NUL. *)
Fixpoint write_name (path_buffer : gmap Z byte) (buf_key : Z)
    (name : list byte) (len : Z) : Z * gmap Z byte :=
  match name with
  | [] => (0, path_buffer)
  | c :: name' =>
      if len =? 0 then (0, path_buffer)
      else if Byte.eqb c NUL then (0, path_buffer)
      else
        let buf_key := (buf_key + 1) mod 2 ^ 32 in
        let '(err, path_buffer) := array_update PATH_MAX path_buffer buf_key c in
        if err <? 0 then (err, path_buffer)
        else write_name path_buffer buf_key name' (len - 1)
  end.

(** [prepend_name]: the error, the new [*buf_size] (a 64-bit [size_t]) and the
    buffer. *)
Definition prepend_name (path_buffer : gmap Z byte) (buf_size : Z)
    (dname : qstr) : Z * Z * gmap Z byte :=
  let name := name dname in
  let len := len dname in
  let buf_size := (buf_size - (len + 1) mod 2 ^ 32) mod 2 ^ 64 in
  if buf_size <? 0 then (- ENAMETOOLONG, buf_size, path_buffer)
  else
    let buf_key := buf_size mod 2 ^ 32 in
    let '(err, path_buffer) := array_update PATH_MAX path_buffer buf_key "/"%byte in
    if err <? 0 then (err, buf_size, path_buffer)
    else
      let '(err, path_buffer) := write_name path_buffer buf_key name len in
      (err, buf_size, path_buffer).

(** The [while (1)] loop of [dentry_full_path], run for at most [fuel]
    rounds. *)
Fixpoint dentry_full_path_loop (fuel : nat) (path_buffer : gmap Z byte)
    (buf_size : Z) (dentry : dentry) : option (Z * gmap Z byte) :=
  match fuel with
  | O => None
  | S fuel =>
      let parent := d_parent dentry in
      if d_addr dentry =? parent then Some (0, path_buffer)
      else
        let '(err, buf_size, path_buffer) :=
          prepend_name path_buffer buf_size (d_name dentry) in
        if negb (err =? 0) then Some (err, path_buffer)
        else dentry_full_path_loop fuel path_buffer buf_size dentry
  end.

Definition dentry_full_path (fuel : nat) (path_buffer : gmap Z byte)
    (dentry : dentry) : option (Z * gmap Z byte) :=
  dentry_full_path_loop fuel path_buffer PATH_MAX dentry.

(** [mount_audit] of the older program; [d] is [BPF_CORE_READ(path, dentry)].
    [print_full_path] only reads the buffer. *)
Definition mount_audit (fuel : nat) (path_buffer : gmap Z byte)
    (d : option dentry) (ret_prev : Z) : option (Z * gmap Z byte) :=
  match d with
  | None => Some (out ret_prev (- EPERM), path_buffer)
  | Some d =>
      match dentry_full_path fuel path_buffer d with
      | None => None
      | Some (err, path_buffer) =>
          if err <? 0 then Some (out ret_prev (- EPERM), path_buffer)
          else Some (out ret_prev 0, path_buffer)
      end
  end.

End Prototype.

(** ** Vocabulary of the statements *)

(** The table the second [switch] of [mount_audit] scans. *)
Definition mount_allowlist_of (m : bpf_maps) (tier : container_policy_level)
    (tbl : gmap N accessed_path) : Prop :=
  (tier = POLICY_LEVEL_RESTRICTED ∧ tbl = ap_mnt_restr m)
  ∨ (tier = POLICY_LEVEL_BASELINE ∧ tbl = ap_mnt_base m).

(** Every process row names a container that has a row. *)
Definition consistent (m : bpf_maps) : Prop :=
  ∀ p r, processes m !! p = Some r → is_Some (containers m !! container_id r).

(** [m'] holds at least the allow-list rows of [m] and is otherwise [m]. *)
Definition allows_more (m m' : bpf_maps) : Prop :=
  processes m' = processes m ∧ containers m' = containers m
  ∧ ap_mnt_restr m ⊆ ap_mnt_restr m' ∧ ap_mnt_base m ⊆ ap_mnt_base m'.

(** [m'] is [m] but for its [processes] map. *)
Definition only_processes_differ (m m' : bpf_maps) : Prop :=
  runtimes m' = runtimes m ∧ containers m' = containers m
  ∧ ap_mnt_restr m' = ap_mnt_restr m ∧ ap_mnt_base m' = ap_mnt_base m
  ∧ ap_acc_restr m' = ap_acc_restr m ∧ ap_acc_base m' = ap_acc_base m
  ∧ dp_acc_restr m' = dp_acc_restr m ∧ dp_acc_base m' = dp_acc_base m.

(** The array [arr] with the bytes [bs] stored at [base], [base + 1], ... *)
Fixpoint stored (base : Z) (bs : list byte) (arr : gmap Z byte) : gmap Z byte :=
  match bs with
  | [] => arr
  | b :: bs' => stored (base + 1) bs' (<[base := b]> arr)
  end.

(** The two readings of a [char]. *)
Definition unsigned_char (b : byte) : Z := Z.of_N (Byte.to_N b).

Definition signed_char (b : byte) : Z :=
  if unsigned_char b <? 128 then unsigned_char b else unsigned_char b - 256.

(** ** Concrete tables and calls used in the examples below *)

Definition bytes (s : string) : list byte := list_byte_of_string s.

(** A table row holding [s], zero-padded (or cut) to PATH_LEN bytes. *)
Definition entry (s : string) : accessed_path :=
  {| path := take PATH_LEN (bytes s ++ repeat NUL PATH_LEN) |}.

(** One container of the given level with id 3 and one process, pid 300, in
    it; [ap_mnt] fills both mount allow lists, [ap_acc] both access allow
    lists and [dp_acc] both access deny lists. *)
Definition one_container (lvl : container_policy_level)
    (ap_mnt ap_acc dp_acc : gmap N accessed_path) : bpf_maps :=
  {| runtimes := ∅;
     containers := {[ 3%N := {| policy_level := lvl |} ]};
     processes := {[ 300 := {| container_id := 3%N |} ]};
     ap_mnt_restr := ap_mnt; ap_mnt_base := ap_mnt;
     ap_acc_restr := ap_acc; ap_acc_base := ap_acc;
     dp_acc_restr := dp_acc; dp_acc_base := dp_acc |}.

(** Processes 100 and 101 bound to container 7, which has no row. *)
Definition orphaned : bpf_maps :=
  {| runtimes := ∅;
     containers := ∅;
     processes := {[ 100 := {| container_id := 7%N |};
                     101 := {| container_id := 7%N |} ]};
     ap_mnt_restr := ∅; ap_mnt_base := ∅;
     ap_acc_restr := ∅; ap_acc_base := ∅;
     dp_acc_restr := ∅; dp_acc_base := ∅ |}.

(** The running task with thread group id [tgid] whose
    [bpf_get_current_comm] returns [comm_ret]. *)
Definition running (tgid : Z) (comm_ret : Z) : current_task :=
  {| pid_tgid := Z.lor (Z.shiftl tgid 32) tgid; get_current_comm := comm_ret |}.

Definition task (p : Z) : task_struct := {| pid := p; comm := bytes "sh" |}.

(** A source path of exactly PATH_LEN bytes. *)
Definition long_path : string :=
  "/var/lib/containers/storage/overlay/0123456789abcdef0123456789ab".

(** * Properties *)

(** ** Bytes and bounded strings *)

Lemma byte_eqb_spec (b c : byte) : reflect (b = c) (Byte.eqb b c).
Proof.
  destruct (Byte.eqb b c) eqn:E; constructor.
  - by apply byte_dec_bl.
  - by apply eqb_false.
Qed.

Lemma byte_diff_nonzero (b c : byte) :
  b ≠ c → Z.of_N (Byte.to_N b) - Z.of_N (Byte.to_N c) ≠ 0.
Proof.
  intros Hne Hz. apply Hne.
  assert (Byte.to_N b = Byte.to_N c) as Heq by lia.
  pose proof (Byte.of_to_N b) as Hb. pose proof (Byte.of_to_N c) as Hc.
  rewrite Heq in Hb. congruence.
Qed.

Lemma strlen_le_max s n : (strlen s n ≤ n)%nat.
Proof.
  revert s. induction n as [|n IH]; intros [|b s]; simpl; try lia.
  destruct (Byte.eqb b NUL); [lia|]. specialize (IH s). lia.
Qed.

Lemma strlen_le_length s n : (strlen s n ≤ length s)%nat.
Proof.
  revert s. induction n as [|n IH]; intros [|b s]; simpl; try lia.
  destruct (Byte.eqb b NUL); [lia|]. specialize (IH s). lia.
Qed.

(** No byte of the effective part of an entry is NUL. *)
Lemma strlen_take_no_NUL s n : NUL ∉ take (strlen s n) s.
Proof.
  revert s. induction n as [|n IH]; intros [|b s]; simpl;
    try apply not_elem_of_nil.
  destruct (byte_eqb_spec b NUL) as [->|Hb]; simpl; [apply not_elem_of_nil|].
  rewrite not_elem_of_cons. split; [congruence | apply IH].
Qed.

Lemma c_content_no_NUL s : NUL ∉ c_content s.
Proof.
  induction s as [|b s IH]; simpl; [apply not_elem_of_nil|].
  destruct (byte_eqb_spec b NUL) as [->|Hb]; [apply not_elem_of_nil|].
  rewrite not_elem_of_cons. split; [congruence | done].
Qed.

(** Comparing over the entry's effective length is comparing the two
    prefixes of that length. *)
Lemma strcmp_strlen_take e p n :
  strcmp e p (strlen e n) = 0 ↔ take (strlen e n) e = take (strlen e n) p.
Proof.
  revert e p. induction n as [|n IH]; intros [|b e] p; simpl; try done.
  destruct (byte_eqb_spec b NUL) as [->|Hb]; simpl; [done|].
  destruct p as [|c p]; simpl.
  - destruct (byte_eqb_spec b NUL) as [->|_]; [done|].
    split; [|done]. intros H. exfalso. by apply (byte_diff_nonzero b NUL Hb).
  - destruct (byte_eqb_spec b c) as [->|Hbc].
    + rewrite IH. split; [by intros ->|]. by intros [=].
    + split; [|by intros [=]]. intros H. by apply byte_diff_nonzero in H.
Qed.

(** [strcmp] is 0 exactly when the first [n] bytes agree. *)
Lemma strcmp_0_iff s1 s2 n :
  strcmp s1 s2 n = 0 ↔ ∀ i, (i < n)%nat → byte_at s1 i = byte_at s2 i.
Proof.
  revert s1 s2. induction n as [|n IH]; intros s1 s2; simpl.
  - split; [intros _ i Hi; lia | done].
  - destruct (byte_eqb_spec (hd NUL s1) (hd NUL s2)) as [Hh|Hh].
    + rewrite IH. split.
      * intros H [|i] Hi.
        -- destruct s1, s2; simpl in *; done.
        -- specialize (H i ltac:(lia)).
           unfold byte_at in *. destruct s1, s2; simpl in *;
             try done; by destruct i.
      * intros H i Hi. specialize (H (S i) ltac:(lia)).
        unfold byte_at in *. destruct s1, s2; simpl in *;
          try done; by destruct i.
    + split; [intros H; by apply byte_diff_nonzero in H|].
      intros H. specialize (H O ltac:(lia)).
      unfold byte_at in H. destruct s1, s2; simpl in *; done.
Qed.

(** ** Path matcher *)

Lemma for_each_check_paths rows p :
  found (for_each_elem check_paths rows {| ctx_path := p; found := false |}) = true
  ↔ ∃ k e, (k, e) ∈ rows ∧ (1 ≤ strlen (path e) PATH_LEN)%nat
           ∧ strcmp (path e) p (strlen (path e) PATH_LEN) = 0.
Proof.
  induction rows as [|[k e] rows IH]; simpl.
  - split; [done|]. intros (? & ? & H & _). by apply elem_of_nil in H.
  - destruct (Nat.ltb_spec (strlen (path e) PATH_LEN) 1) as [Hlen|Hlen]; simpl.
    + rewrite IH. split.
      * intros (k' & e' & Hin & H). exists k', e'. split; [by right | done].
      * intros (k' & e' & Hin & Hl & Hc).
        apply elem_of_cons in Hin as [[= -> ->]|Hin]; [lia|]. by exists k', e'.
    + destruct (Z.eqb_spec (strcmp (path e) p (strlen (path e) PATH_LEN)) 0)
        as [Hc|Hc]; simpl.
      * split; [|done]. intros _. exists k, e. split; [by left | done].
      * rewrite IH. split.
        -- intros (k' & e' & Hin & H). exists k', e'. split; [by right | done].
        -- intros (k' & e' & Hin & Hl & Hc').
           apply elem_of_cons in Hin as [[= -> ->]|Hin]; [done|]. by exists k', e'.
Qed.

(** The prefix law, in the form the handlers' proofs use. *)
Lemma match_paths_iff (T : gmap N accessed_path) (P : list byte) :
  match_paths T P = true
  ↔ ∃ k E, T !! k = Some E ∧ (1 ≤ strlen (path E) PATH_LEN)%nat
           ∧ take (strlen (path E) PATH_LEN) (path E)
             = take (strlen (path E) PATH_LEN) P.
Proof.
  unfold match_paths, bpf_for_each_map_elem. rewrite for_each_check_paths.
  split; intros (k & E & Hin & Hl & Hc); exists k, E.
  - apply elem_of_map_to_list in Hin. by rewrite <- strcmp_strlen_take.
  - rewrite elem_of_map_to_list, strcmp_strlen_take. done.
Qed.

(** C6 — Path Matcher prefix law: the matcher answers true exactly when some
    entry of the table has an effective length (bytes up to the first NUL, at
    most PATH_LEN) of at least 1 and its first bytes, over that length, equal
    the probe's; a table of empty (all-NUL) entries matches no probe. *)
Theorem match_paths_prefix_law (T : gmap N accessed_path) (P : list byte) :
  (match_paths T P = true
   ↔ ∃ k E, T !! k = Some E ∧ (1 ≤ strlen (path E) PATH_LEN)%nat
            ∧ take (strlen (path E) PATH_LEN) (path E)
              = take (strlen (path E) PATH_LEN) P)
  ∧ ((∀ k E, T !! k = Some E → strlen (path E) PATH_LEN = O) →
     match_paths T P = false).
Proof.
  split; [apply match_paths_iff|].
  intros Hempty. apply not_true_is_false. rewrite match_paths_iff.
  intros (k & E & Hk & Hl & _). apply Hempty in Hk. lia.
Qed.

Lemma match_paths_prefix_law_witness :
  match_paths {[ 0%N := entry "/var/lib" ]} (bytes "/var/lib/containers") = true
  ∧ match_paths {[ 0%N := entry "" ]} (bytes "/var/lib/containers") = false.
Proof.
  split.
  - apply (proj1 (match_paths_prefix_law _ _)).
    exists 0%N, (entry "/var/lib"). split; [apply lookup_singleton_eq|].
    split; [vm_compute; lia | reflexivity].
  - apply (proj2 (match_paths_prefix_law _ _)).
    intros k E [_ <-]%lookup_singleton_Some. reflexivity.
Defined.

(** ** The previous verdict *)

Lemma out_prev (ret_prev ret : Z) : ret_prev ≠ 0 → out ret_prev ret = ret_prev.
Proof. intros H. unfold out. by destruct (Z.eqb_spec ret_prev 0). Qed.

Lemma out_0 (ret : Z) : out 0 ret = ret.
Proof. reflexivity. Qed.

Lemma out_idemp (ret_prev ret : Z) : out ret_prev (out 0 ret) = out ret_prev ret.
Proof. reflexivity. Qed.

(** The stacking law holds where every path of a program ends at [out]. *)
Lemma syslog_audit_stacking m cur type ret_prev :
  syslog_audit m cur type ret_prev = out ret_prev (syslog_audit m cur type 0).
Proof. unfold syslog_audit. by rewrite out_idemp. Qed.

Lemma mount_audit_stacking m cur ts ds dev_name type flags ret_prev :
  mount_audit m cur ts ds dev_name type flags ret_prev
  = out ret_prev (mount_audit m cur ts ds dev_name type flags 0).
Proof. unfold mount_audit. by rewrite out_idemp. Qed.

Lemma open_audit_stacking m cur f ret_prev :
  open_audit m cur f ret_prev = out ret_prev (open_audit m cur f 0).
Proof. unfold open_audit. by rewrite out_idemp. Qed.

Lemma setuid_audit_stacking m cur new old flags ret_prev :
  0 ≤ get_current_comm cur →
  setuid_audit m cur new old flags ret_prev
  = out ret_prev (setuid_audit m cur new old flags 0).
Proof.
  intros Hcomm. unfold setuid_audit.
  destruct (Z.ltb_spec (get_current_comm cur) 0); [lia|]. by rewrite out_idemp.
Qed.

(** C2 — stacking law, evaluated where it breaks: [setuid_audit] leaves by
    [return -EFAULT] when [bpf_get_current_comm] fails, so a previous verdict
    of -13 (-EACCES) is replaced by -14 (-EFAULT) instead of being returned. *)
Theorem setuid_comm_fault_drops_previous_verdict :
  setuid_audit (one_container POLICY_LEVEL_BASELINE ∅ ∅ ∅)
    (running 300 (- EINVAL)) {| uid := 0 |} {| uid := 1000 |} 0 (-13) = - EFAULT
  ∧ - EFAULT ≠ -13.
Proof. split; [reflexivity | done]. Qed.

(** ** PRIVILEGED containers and host processes *)

Lemma syslog_audit_passthrough m cur type :
  get_policy_level m (current_pid cur) = POLICY_LEVEL_PRIVILEGED
  ∨ processes m !! current_pid cur = None →
  syslog_audit m cur type 0 = 0.
Proof.
  unfold syslog_audit, get_policy_level. intros [-> | ->]; reflexivity.
Qed.

Lemma mount_audit_passthrough m cur ts ds dev_name type flags :
  get_policy_level m (current_pid cur) = POLICY_LEVEL_PRIVILEGED
  ∨ processes m !! current_pid cur = None →
  mount_audit m cur ts ds dev_name type flags 0 = 0.
Proof.
  unfold mount_audit, get_policy_level. intros [-> | ->]; reflexivity.
Qed.

Lemma open_audit_passthrough m cur f :
  get_policy_level m (current_pid cur) = POLICY_LEVEL_PRIVILEGED
  ∨ processes m !! current_pid cur = None →
  open_audit m cur f 0 = 0.
Proof.
  unfold open_audit, get_policy_level. intros [-> | ->]; reflexivity.
Qed.

Lemma setuid_audit_passthrough m cur new old flags :
  0 ≤ get_current_comm cur →
  get_policy_level m (current_pid cur) = POLICY_LEVEL_PRIVILEGED
  ∨ processes m !! current_pid cur = None →
  setuid_audit m cur new old flags 0 = 0.
Proof.
  intros Hcomm. unfold setuid_audit, get_policy_level.
  destruct (Z.ltb_spec (get_current_comm cur) 0); [lia|].
  intros [-> | ->]; reflexivity.
Qed.

(** C3 — PRIVILEGED and host passthrough, evaluated where it breaks: with
    previous verdict 0 and a failing [bpf_get_current_comm], [setuid_audit]
    answers -EFAULT to a process of a PRIVILEGED container (pid 300) and to a
    process without a row in [processes] (pid 1). *)
Theorem setuid_comm_fault_hits_privileged_and_host :
  get_policy_level (one_container POLICY_LEVEL_PRIVILEGED ∅ ∅ ∅)
    (current_pid (running 300 (- EINVAL))) = POLICY_LEVEL_PRIVILEGED
  ∧ setuid_audit (one_container POLICY_LEVEL_PRIVILEGED ∅ ∅ ∅)
      (running 300 (- EINVAL)) {| uid := 0 |} {| uid := 0 |} 0 0 = - EFAULT
  ∧ processes (one_container POLICY_LEVEL_PRIVILEGED ∅ ∅ ∅)
      !! current_pid (running 1 (- EINVAL)) = None
  ∧ setuid_audit (one_container POLICY_LEVEL_PRIVILEGED ∅ ∅ ∅)
      (running 1 (- EINVAL)) {| uid := 0 |} {| uid := 0 |} 0 0 = - EFAULT.
Proof. repeat split; reflexivity. Qed.

(** ** setuid *)

(** C9 — the setuid decision as the program takes it: with previous verdict 0
    and the command name read, the verdict is -EPERM when the resolver
    reports LOOKUP_ERR, -EPERM when the tier is RESTRICTED or BASELINE and
    the new uid is 0 and the old uid is at least 1000, and 0 in every other
    case. *)
Theorem setuid_audit_verdict m cur new old flags :
  0 ≤ get_current_comm cur →
  let tier := get_policy_level m (current_pid cur) in
  let to_root :=
    (tier = POLICY_LEVEL_RESTRICTED ∨ tier = POLICY_LEVEL_BASELINE)
    ∧ uid new = 0%N ∧ (1000 ≤ uid old)%N in
  (tier = POLICY_LEVEL_LOOKUP_ERR → setuid_audit m cur new old flags 0 = - EPERM)
  ∧ (to_root → setuid_audit m cur new old flags 0 = - EPERM)
  ∧ (tier ≠ POLICY_LEVEL_LOOKUP_ERR → ¬ to_root →
     setuid_audit m cur new old flags 0 = 0).
Proof.
  intros Hcomm tier to_root. subst to_root. unfold setuid_audit. fold tier.
  destruct (Z.ltb_spec (get_current_comm cur) 0); [lia|]. rewrite out_0.
  destruct (N.eqb_spec (uid new) 0) as [Hn|Hn];
    destruct (N.leb_spec 1000 (uid old)) as [Ho|Ho]; simpl;
    (split; [by intros ->|]);
    (split; [intros ([-> | ->] & ? & ?); (reflexivity || lia)|]);
    destruct tier; try done; intros _ Hnot; exfalso; apply Hnot; auto.
Qed.

Lemma setuid_audit_verdict_witness :
  setuid_audit (one_container POLICY_LEVEL_BASELINE ∅ ∅ ∅) (running 300 0)
    {| uid := 0 |} {| uid := 1000 |} 0 0 = - EPERM
  ∧ setuid_audit (one_container POLICY_LEVEL_BASELINE ∅ ∅ ∅) (running 300 0)
      {| uid := 1002 |} {| uid := 1001 |} 0 0 = 0
  ∧ setuid_audit orphaned (running 100 0)
      {| uid := 1001 |} {| uid := 1001 |} 0 0 = - EPERM.
Proof.
  assert (0 ≤ get_current_comm (running 300 0)) as Hcomm by (simpl; lia).
  assert (0 ≤ get_current_comm (running 100 0)) as Hcomm' by (simpl; lia).
  split; [|split].
  - apply (proj1 (proj2 (setuid_audit_verdict
                           (one_container POLICY_LEVEL_BASELINE ∅ ∅ ∅)
                           (running 300 0) {| uid := 0 |} {| uid := 1000 |} 0
                           Hcomm))).
    split; [right; reflexivity|]. split; [reflexivity | simpl; lia].
  - apply (proj2 (proj2 (setuid_audit_verdict
                           (one_container POLICY_LEVEL_BASELINE ∅ ∅ ∅)
                           (running 300 0) {| uid := 1002 |} {| uid := 1001 |} 0
                           Hcomm))).
    + vm_compute. discriminate.
    + intros (_ & Hn & _). vm_compute in Hn. discriminate.
  - apply (proj1 (setuid_audit_verdict orphaned (running 100 0)
                    {| uid := 1001 |} {| uid := 1001 |} 0 Hcomm')).
    reflexivity.
Defined.

(** A process whose container row is missing is refused although no uid
    changes to 0: outside the RESTRICTED and BASELINE rule the verdict is not
    always ALLOW. *)
Lemma setuid_lookup_err_denied :
  get_policy_level orphaned (current_pid (running 100 0)) = POLICY_LEVEL_LOOKUP_ERR
  ∧ setuid_audit orphaned (running 100 0) {| uid := 1001 |} {| uid := 1001 |} 0 0
    = - EPERM
  ∧ - EPERM ≠ 0.
Proof. repeat split; done. Qed.

(** C10 — when reading the command name fails, [setuid_audit] returns -EFAULT
    at once: whatever the tables hold (so for every tier, PRIVILEGED and host
    processes included) and whatever the previous verdict is. *)
Theorem setuid_audit_comm_fault m cur new old flags ret_prev :
  get_current_comm cur < 0 →
  setuid_audit m cur new old flags ret_prev = - EFAULT.
Proof.
  intros Hcomm. unfold setuid_audit.
  by destruct (Z.ltb_spec (get_current_comm cur) 0); [|lia].
Qed.

Lemma setuid_audit_comm_fault_witness :
  setuid_audit (one_container POLICY_LEVEL_PRIVILEGED ∅ ∅ ∅)
    (running 300 (- EINVAL)) {| uid := 0 |} {| uid := 0 |} 0 (-13) = - EFAULT.
Proof. apply setuid_audit_comm_fault. simpl. unfold EINVAL. lia. Defined.

(** ** Lineage tracker *)

Lemma bpf_map_update_elem_ok `{Countable K} {V} max (m m' : gmap K V) k v :
  bpf_map_update_elem max m k v = (0, m') → m' !! k = Some v.
Proof.
  unfold bpf_map_update_elem. destruct (m !! k).
  - intros [= <-]. apply lookup_insert_eq.
  - destruct (max <=? Z.of_nat (size m)); [done|].
    intros [= <-]. apply lookup_insert_eq.
Qed.

Lemma handle_new_process_registered m parent child :
  is_Some (processes m !! pid child) → handle_new_process m parent child = (0, m).
Proof.
  intros [p Hp]. unfold handle_new_process.
  destruct (processes m !! pid parent); [|done]. by rewrite Hp.
Qed.

(** C7 — the Lineage Tracker is idempotent: when [processes] already has a
    row for the child, [handle_new_process] returns 0 and leaves every map as
    it was; hence after a call that returned 0, the same call again returns 0
    and changes nothing. *)
Theorem handle_new_process_idempotent m parent child :
  (is_Some (processes m !! pid child) →
   handle_new_process m parent child = (0, m))
  ∧ (∀ m', handle_new_process m parent child = (0, m') →
           handle_new_process m' parent child = (0, m')).
Proof.
  split; [apply handle_new_process_registered|].
  intros m'. unfold handle_new_process at 1.
  destruct (processes m !! pid parent) as [pp|] eqn:Hpp.
  - destruct (processes m !! pid child) as [pc|] eqn:Hpc.
    + intros [= <-]. apply handle_new_process_registered. by rewrite Hpc.
    + destruct (containers m !! container_id pp); [|done].
      destruct (bpf_map_update_elem _ _ _ _) as [err procs] eqn:Hupd.
      destruct (Z.ltb_spec err 0) as [Hneg|Hpos]; [intros [= -> _]; lia|].
      intros [= <-]. apply handle_new_process_registered. simpl.
      destruct (decide (err = 0)) as [->|Herr].
      * apply bpf_map_update_elem_ok in Hupd. by rewrite Hupd.
      * revert Hupd. unfold bpf_map_update_elem.
        destruct (processes m !! pid child); [by intros [= <- _]|].
        destruct (_ <=? _); by intros [= <- _].
  - intros [= <-]. unfold handle_new_process. by rewrite Hpp.
Qed.

Lemma handle_new_process_idempotent_witness :
  handle_new_process orphaned (task 100) (task 101) = (0, orphaned)
  ∧ handle_new_process
    (handle_new_process (one_container POLICY_LEVEL_BASELINE ∅ ∅ ∅)
       (task 300) (task 301)).2 (task 300) (task 301)
  = (0, (handle_new_process (one_container POLICY_LEVEL_BASELINE ∅ ∅ ∅)
           (task 300) (task 301)).2).
Proof.
  split.
  { apply (proj1 (handle_new_process_idempotent orphaned (task 100) (task 101))).
    vm_compute. eexists. reflexivity. }
  apply (proj2 (handle_new_process_idempotent
                  (one_container POLICY_LEVEL_BASELINE ∅ ∅ ∅)
                  (task 300) (task 301))).
  reflexivity.
Defined.

(** C8 — a parent bound to a container that has no row: when the child has
    no row either, [handle_new_process] returns -EPERM and inserts nothing;
    when the child already has a row, the earlier test returns 0, again with
    every map unchanged. *)
Theorem handle_new_process_missing_container m parent child p :
  processes m !! pid parent = Some p →
  containers m !! container_id p = None →
  (processes m !! pid child = None →
   handle_new_process m parent child = (- EPERM, m))
  ∧ (is_Some (processes m !! pid child) →
     handle_new_process m parent child = (0, m)).
Proof.
  intros Hp Hc. split; [|apply handle_new_process_registered].
  intros Hchild. unfold handle_new_process. by rewrite Hp, Hchild, Hc.
Qed.

Lemma handle_new_process_missing_container_witness :
  handle_new_process orphaned (task 100) (task 102) = (- EPERM, orphaned)
  ∧ handle_new_process orphaned (task 100) (task 101) = (0, orphaned).
Proof.
  split.
  - by apply (handle_new_process_missing_container orphaned (task 100)
                (task 102) {| container_id := 7%N |}).
  - apply (handle_new_process_missing_container orphaned (task 100)
             (task 101) {| container_id := 7%N |}); [done | done |].
    vm_compute. eexists. reflexivity.
Defined.

(** The parent's container is missing, yet the call reports success because
    the child already has a row. *)
Lemma handle_new_process_missing_container_success :
  (∃ p, processes orphaned !! pid (task 100) = Some p
        ∧ containers orphaned !! container_id p = None)
  ∧ handle_new_process orphaned (task 100) (task 101) = (0, orphaned)
  ∧ 0 ≠ - EPERM.
Proof.
  split; [by exists {| container_id := 7%N |}|]. split; [reflexivity | done].
Qed.

(** ** NUL-terminated buffers *)

Lemma overwrite_terminated dst body :
  overwrite dst (body ++ [NUL])
  = body ++ NUL :: drop (length (body ++ [NUL])) dst.
Proof. unfold overwrite. by rewrite <- app_assoc. Qed.

Lemma take_no_NUL (s : list byte) n : NUL ∉ s → NUL ∉ take n s.
Proof.
  intros Hs Hin. apply Hs. apply elem_of_take in Hin as (i & Hi & _).
  by eapply list_elem_of_lookup_2.
Qed.

(** Comparing a terminated buffer with a terminated literal, over the
    literal and its NUL, tells whether the two strings are the same. *)
Lemma strcmp_terminated body lit r1 r2 :
  NUL ∉ body → NUL ∉ lit →
  strcmp (body ++ NUL :: r1) (lit ++ NUL :: r2) (S (length lit)) = 0
  ↔ body = lit.
Proof.
  revert lit. induction body as [|b body IH]; intros [|c lit] Hb Hl.
  - done.
  - apply not_elem_of_cons in Hl as [Hc _]. cbn [app length strcmp hd tl].
    destruct (byte_eqb_spec NUL c) as [E|_]; [done|].
    split; [|done]. intros H. exfalso. by apply (byte_diff_nonzero NUL c).
  - apply not_elem_of_cons in Hb as [Hb _]. cbn [app length strcmp hd tl].
    destruct (byte_eqb_spec b NUL) as [E|_]; [done|].
    split; [|done]. intros H. exfalso. by apply (byte_diff_nonzero b NUL).
  - apply not_elem_of_cons in Hb as [_ Hb]. apply not_elem_of_cons in Hl as [_ Hl].
    cbn [app length hd tl]. change (strcmp (b :: ?x) (c :: ?y) (S ?n))
      with (if Byte.eqb b c then strcmp x y n
            else Z.of_N (Byte.to_N b) - Z.of_N (Byte.to_N c)).
    destruct (byte_eqb_spec b c) as [->|Hbc].
    + rewrite (IH lit Hb Hl). split; [by intros ->|]. by intros [=].
    + split; [|by intros [=]]. intros H. by apply byte_diff_nonzero in H.
Qed.

(** An entry's effective part agrees with a terminated buffer exactly when
    it is a prefix of the string the buffer holds. *)
Lemma take_terminated_prefix (e body rest : list byte) :
  NUL ∉ e →
  e = take (length e) (body ++ NUL :: rest) ↔ e `prefix_of` body.
Proof.
  intros He. split.
  - intros Heq. destruct (decide (length e ≤ length body)%nat) as [Hle|Hgt].
    + rewrite take_app_le in Heq by done. rewrite Heq. apply prefix_take.
    + exfalso. apply He. rewrite Heq, take_app_ge by lia.
      apply elem_of_app. right.
      destruct (length e - length body)%nat as [|d] eqn:Hd; [lia|].
      simpl. by left.
  - intros [k ->]. by rewrite <- app_assoc, take_app_length.
Qed.

Lemma prefix_of_take (e c : list byte) k :
  e `prefix_of` take k c ↔ (length e ≤ k)%nat ∧ e `prefix_of` c.
Proof.
  split.
  - intros H. split.
    + apply prefix_length in H. rewrite length_take in H. lia.
    + etrans; [exact H | apply prefix_take].
  - intros [Hlen [r ->]]. rewrite take_app_ge by done. by apply prefix_app_r.
Qed.

Lemma length_take_strlen s n : length (take (strlen s n) s) = strlen s n.
Proof. rewrite length_take. pose proof (strlen_le_length s n). lia. Qed.

(** The matcher on a buffer that holds the NUL-terminated string [body]. *)
Lemma match_paths_terminated (T : gmap N accessed_path) body rest :
  NUL ∉ body →
  match_paths T (body ++ NUL :: rest) = true
  ↔ ∃ k E, T !! k = Some E ∧ (1 ≤ strlen (path E) PATH_LEN)%nat
           ∧ take (strlen (path E) PATH_LEN) (path E) `prefix_of` body.
Proof.
  intros Hbody. rewrite match_paths_iff.
  split; intros (k & E & Hk & Hl & H); exists k, E; (split; [done|split; [done|]]).
  - apply (take_terminated_prefix _ body rest); [apply strlen_take_no_NUL|].
    by rewrite length_take_strlen.
  - apply (take_terminated_prefix _ body rest) in H; [|apply strlen_take_no_NUL].
    by rewrite length_take_strlen in H.
Qed.

(** ** mount *)

(** What the 5-byte read leaves in [type_safe]: the first four bytes of the
    type, then NUL. *)
Lemma read_mount_type ts t :
  bpf_probe_read_kernel_str ts MOUNT_TYPE_LEN (Str t)
  = (Z.of_nat (length (take 4 (c_content t)) + 1),
     take 4 (c_content t) ++ NUL
       :: drop (length (take 4 (c_content t) ++ [NUL])) ts).
Proof.
  unfold bpf_probe_read_kernel_str. by rewrite overwrite_terminated.
Qed.

Lemma type_is_bind ts t :
  strcmp (bpf_probe_read_kernel_str ts MOUNT_TYPE_LEN (Str t)).2
    (MOUNT_TYPE_BIND ++ [NUL]) MOUNT_TYPE_LEN = 0
  ↔ take 4 (c_content t) = MOUNT_TYPE_BIND.
Proof.
  rewrite read_mount_type. cbn [snd].
  apply (strcmp_terminated _ MOUNT_TYPE_BIND _ []).
  - apply take_no_NUL, c_content_no_NUL.
  - vm_compute. intros H. repeat (apply elem_of_cons in H as [H|H]; [done|]).
    by apply elem_of_nil in H.
Qed.

Lemma mount_audit_other_type m cur ts ds dev_name t flags ret_prev :
  get_policy_level m (current_pid cur) = POLICY_LEVEL_RESTRICTED
  ∨ get_policy_level m (current_pid cur) = POLICY_LEVEL_BASELINE →
  take 4 (c_content t) ≠ MOUNT_TYPE_BIND →
  mount_audit m cur ts ds dev_name (Str t) flags ret_prev = out ret_prev 0.
Proof.
  intros Htier Ht. rewrite <- (type_is_bind ts) in Ht. unfold mount_audit. f_equal.
  destruct (bpf_probe_read_kernel_str ts MOUNT_TYPE_LEN (Str t))
    as [r buf] eqn:Hread.
  assert (0 ≤ r) as Hr.
  { rewrite read_mount_type in Hread. injection Hread as <- _. lia. }
  cbn [snd] in Ht.
  destruct Htier as [-> | ->]; destruct (Z.ltb_spec r 0); try lia;
    by destruct (Z.eqb_spec (strcmp buf (MOUNT_TYPE_BIND ++ [NUL]) MOUNT_TYPE_LEN) 0).
Qed.

Lemma mount_audit_bind_type m cur ts ds s t flags ret_prev tbl :
  mount_allowlist_of m (get_policy_level m (current_pid cur)) tbl →
  take 4 (c_content t) = MOUNT_TYPE_BIND →
  mount_audit m cur ts ds (Str s) (Str t) flags ret_prev
  = out ret_prev
      (if match_paths tbl
            (take (PATH_LEN - 1) (c_content s) ++ NUL
               :: drop (length (take (PATH_LEN - 1) (c_content s) ++ [NUL])) ds)
       then 0 else - EPERM).
Proof.
  intros Htier Ht. rewrite <- (type_is_bind ts) in Ht. unfold mount_audit. f_equal.
  destruct (bpf_probe_read_kernel_str ts MOUNT_TYPE_LEN (Str t))
    as [r buf] eqn:Hread.
  assert (0 ≤ r) as Hr.
  { rewrite read_mount_type in Hread. injection Hread as <- _. lia. }
  cbn [snd] in Ht. rewrite Ht.
  unfold bpf_probe_read_kernel_str. rewrite overwrite_terminated.
  destruct Htier as [[-> ->] | [-> ->]]; destruct (Z.ltb_spec r 0); try lia;
    cbn [Z.eqb negb];
    by destruct (Z.ltb_spec (Z.of_nat (length (take (PATH_LEN - 1) (c_content s)) + 1)) 0);
      [lia|].
Qed.

(** The scan of a mount allow list over the 64-byte copy of [dev_name]: the
    copy keeps 63 bytes of the name, so only entries of at most 63 bytes can
    be found in it. *)
Lemma match_paths_dev_name (tbl : gmap N accessed_path) s rest :
  match_paths tbl (take (PATH_LEN - 1) (c_content s) ++ NUL :: rest) = true
  ↔ ∃ k E, tbl !! k = Some E
           ∧ (1 ≤ strlen (path E) PATH_LEN ≤ 63)%nat
           ∧ take (strlen (path E) PATH_LEN) (path E) `prefix_of` c_content s.
Proof.
  rewrite match_paths_terminated by apply take_no_NUL, c_content_no_NUL.
  split; intros (k & E & Hk & Hl & H); exists k, E; (split; [done|]).
  - apply prefix_of_take in H as [Hlen H]. rewrite length_take_strlen in Hlen.
    change (PATH_LEN - 1)%nat with 63%nat in Hlen. done.
  - split; [lia|]. apply prefix_of_take. rewrite length_take_strlen.
    change (PATH_LEN - 1)%nat with 63%nat. split; [lia | done].
Qed.

(** C4 — bind mounts of RESTRICTED and BASELINE processes, with a readable
    [dev_name]: the verdict (folded with the previous one) is ALLOW when some
    entry of the tier's mount allow list, of effective length 1 to 63, is a
    prefix of [dev_name], and -EPERM otherwise. *)
Theorem mount_audit_bind_allowlist m cur ts ds s t flags ret_prev tbl :
  mount_allowlist_of m (get_policy_level m (current_pid cur)) tbl →
  c_content t = MOUNT_TYPE_BIND →
  let hit :=
    ∃ k E, tbl !! k = Some E
           ∧ (1 ≤ strlen (path E) PATH_LEN ≤ 63)%nat
           ∧ take (strlen (path E) PATH_LEN) (path E) `prefix_of` c_content s in
  (hit → mount_audit m cur ts ds (Str s) (Str t) flags ret_prev = out ret_prev 0)
  ∧ (¬ hit →
     mount_audit m cur ts ds (Str s) (Str t) flags ret_prev
     = out ret_prev (- EPERM)).
Proof.
  intros Htbl Ht hit. subst hit.
  rewrite (mount_audit_bind_type _ _ _ _ _ _ _ _ tbl Htbl) by by rewrite Ht.
  rewrite <- (match_paths_dev_name tbl s
                (drop (length (take (PATH_LEN - 1) (c_content s) ++ [NUL])) ds)).
  split; [by intros ->|]. by intros ->%not_true_is_false.
Qed.

Lemma mount_audit_bind_allowlist_witness :
  mount_audit (one_container POLICY_LEVEL_RESTRICTED
                 {[ 0%N := entry "/var/lib/containers" ]} ∅ ∅)
    (running 300 0) [] [] (Str (bytes "/var/lib/containers/foo"))
    (Str (bytes "bind")) 0 0 = 0
  ∧ mount_audit (one_container POLICY_LEVEL_RESTRICTED
                   {[ 0%N := entry "/var/lib/containers" ]} ∅ ∅)
      (running 300 0) [] [] (Str (bytes "/root/secret"))
      (Str (bytes "bind")) 0 0 = - EPERM.
Proof.
  split.
  - apply (mount_audit_bind_allowlist
             (one_container POLICY_LEVEL_RESTRICTED
                {[ 0%N := entry "/var/lib/containers" ]} ∅ ∅)
             (running 300 0) [] [] (bytes "/var/lib/containers/foo")
             (bytes "bind") 0 0 {[ 0%N := entry "/var/lib/containers" ]}).
    + left. split; reflexivity.
    + reflexivity.
    + exists 0%N, (entry "/var/lib/containers").
      split; [apply lookup_singleton_eq|]. split; [vm_compute; lia|].
      exists (bytes "/foo"). reflexivity.
  - apply (mount_audit_bind_allowlist
             (one_container POLICY_LEVEL_RESTRICTED
                {[ 0%N := entry "/var/lib/containers" ]} ∅ ∅)
             (running 300 0) [] [] (bytes "/root/secret")
             (bytes "bind") 0 0 {[ 0%N := entry "/var/lib/containers" ]}).
    + left. split; reflexivity.
    + reflexivity.
    + intros (k & E & [_ <-]%lookup_singleton_Some & _ & [r Hr]).
      vm_compute in Hr. discriminate.
Defined.

(** An allow-list entry of all 64 bytes is a prefix of the source path, and
    the bind mount is refused: the 64-byte copy of [dev_name] ends in NUL
    after 63 bytes. *)
Lemma mount_audit_full_length_entry_denied :
  get_policy_level
    (one_container POLICY_LEVEL_RESTRICTED {[ 0%N := entry long_path ]} ∅ ∅)
    (current_pid (running 300 0)) = POLICY_LEVEL_RESTRICTED
  ∧ (∃ k E,
       ap_mnt_restr
         (one_container POLICY_LEVEL_RESTRICTED {[ 0%N := entry long_path ]} ∅ ∅)
         !! k = Some E
       ∧ (1 ≤ strlen (path E) PATH_LEN)%nat
       ∧ take (strlen (path E) PATH_LEN) (path E)
         `prefix_of` c_content (bytes long_path))
  ∧ mount_audit
      (one_container POLICY_LEVEL_RESTRICTED {[ 0%N := entry long_path ]} ∅ ∅)
      (running 300 0) [] [] (Str (bytes long_path)) (Str (bytes "bind")) 0 0
    = - EPERM
  ∧ - EPERM ≠ 0.
Proof.
  split; [reflexivity|]. split; [|split; [reflexivity | done]].
  exists 0%N, (entry long_path). split; [apply lookup_singleton_eq|].
  split; [vm_compute; lia|]. exists []. reflexivity.
Qed.

(** C5 — the type gate of [mount_audit] for RESTRICTED and BASELINE
    processes: a readable type whose first four bytes are not "bind" gives
    ALLOW whatever the path tables hold, and so does a NULL type; a type that
    starts with "bind" is handled exactly as "bind" is. *)
Theorem mount_audit_type_gate m cur ts ds dev_name t flags ret_prev :
  get_policy_level m (current_pid cur) = POLICY_LEVEL_RESTRICTED
  ∨ get_policy_level m (current_pid cur) = POLICY_LEVEL_BASELINE →
  (take 4 (c_content t) ≠ MOUNT_TYPE_BIND →
   mount_audit m cur ts ds dev_name (Str t) flags ret_prev = out ret_prev 0)
  ∧ mount_audit m cur ts ds dev_name NULL flags ret_prev = out ret_prev 0
  ∧ (take 4 (c_content t) = MOUNT_TYPE_BIND →
     mount_audit m cur ts ds dev_name (Str t) flags ret_prev
     = mount_audit m cur ts ds dev_name (Str MOUNT_TYPE_BIND) flags ret_prev).
Proof.
  intros Htier. split; [by apply mount_audit_other_type|]. split.
  - unfold mount_audit. by destruct Htier as [-> | ->].
  - intros Ht. unfold mount_audit. rewrite !read_mount_type, Ht. reflexivity.
Qed.

Lemma mount_audit_type_gate_witness :
  mount_audit (one_container POLICY_LEVEL_RESTRICTED ∅ ∅ ∅) (running 300 0)
    [] [] (Str (bytes "whatever")) (Str (bytes "tmpfs")) 0 0 = 0
  ∧ mount_audit (one_container POLICY_LEVEL_RESTRICTED ∅ ∅ ∅) (running 300 0)
      [] [] (Str (bytes "/root/secret")) (Str (bytes "bindfs")) 0 0
    = mount_audit (one_container POLICY_LEVEL_RESTRICTED ∅ ∅ ∅) (running 300 0)
        [] [] (Str (bytes "/root/secret")) (Str MOUNT_TYPE_BIND) 0 0.
Proof.
  split.
  - apply (proj1 (mount_audit_type_gate
                    (one_container POLICY_LEVEL_RESTRICTED ∅ ∅ ∅) (running 300 0)
                    [] [] (Str (bytes "whatever")) (bytes "tmpfs") 0 0
                    (or_introl eq_refl))).
    vm_compute. discriminate.
  - apply (proj2 (proj2 (mount_audit_type_gate
                    (one_container POLICY_LEVEL_RESTRICTED ∅ ∅ ∅) (running 300 0)
                    [] [] (Str (bytes "/root/secret")) (bytes "bindfs") 0 0
                    (or_introl eq_refl)))).
    reflexivity.
Defined.

(** The type "bindfs" is not "bind", and the mount is policed and refused. *)
Lemma mount_audit_bindfs_denied :
  get_policy_level (one_container POLICY_LEVEL_RESTRICTED ∅ ∅ ∅)
    (current_pid (running 300 0)) = POLICY_LEVEL_RESTRICTED
  ∧ c_content (bytes "bindfs") ≠ MOUNT_TYPE_BIND
  ∧ mount_audit (one_container POLICY_LEVEL_RESTRICTED ∅ ∅ ∅) (running 300 0)
      [] [] (Str (bytes "/root/secret")) (Str (bytes "bindfs")) 0 0 = - EPERM
  ∧ - EPERM ≠ 0.
Proof. repeat split; done. Qed.

(** ** open *)

Lemma read_d_path s :
  (length (c_content s) < PATH_LEN)%nat →
  bpf_d_path (Some s) (repeat NUL PATH_LEN) PATH_LEN
  = (Z.of_nat (length (c_content s) + 1),
     c_content s ++ NUL
       :: drop (length (c_content s ++ [NUL])) (repeat NUL PATH_LEN)).
Proof.
  intros Hlen. unfold bpf_d_path.
  destruct (Nat.ltb_spec PATH_LEN (length (c_content s) + 1)); [lia|].
  by rewrite overwrite_terminated.
Qed.

Lemma path_is_root s rest :
  strcmp (c_content s ++ NUL :: rest) (list_byte_of_string "/" ++ [NUL]) 2 = 0
  ↔ c_content s = bytes "/".
Proof.
  apply (strcmp_terminated _ (list_byte_of_string "/") _ []).
  - apply c_content_no_NUL.
  - vm_compute. intros H. apply elem_of_cons in H as [H|H]; [done|].
    by apply elem_of_nil in H.
Qed.

(** What [open_audit] does for a RESTRICTED or BASELINE process once the
    path is in the buffer and is not "/". *)
Lemma open_audit_policed m cur s ret_prev :
  get_policy_level m (current_pid cur) = POLICY_LEVEL_RESTRICTED
  ∨ get_policy_level m (current_pid cur) = POLICY_LEVEL_BASELINE →
  (length (c_content s) < PATH_LEN)%nat →
  c_content s ≠ bytes "/" →
  ∃ rest,
    open_audit m cur {| f_path := Some s |} ret_prev
    = out ret_prev
        match get_policy_level m (current_pid cur) with
        | POLICY_LEVEL_RESTRICTED =>
            if match_paths (ap_acc_restr m) (c_content s ++ NUL :: rest)
            then - EPERM
            else if match_paths (ap_acc_restr m) (c_content s ++ NUL :: rest)
            then 0 else - EPERM
        | _ =>
            if match_paths (dp_acc_base m) (c_content s ++ NUL :: rest)
            then - EPERM
            else if match_paths (ap_acc_base m) (c_content s ++ NUL :: rest)
            then 0 else - EPERM
        end.
Proof.
  intros Htier Hlen Hroot.
  exists (drop (length (c_content s ++ [NUL])) (repeat NUL PATH_LEN)).
  unfold open_audit. f_equal. cbn [f_path]. rewrite (read_d_path s Hlen).
  destruct (Z.ltb_spec (Z.of_nat (length (c_content s) + 1)) 0); [lia|].
  destruct (Z.eqb_spec
              (strcmp (c_content s ++ NUL
                         :: drop (length (c_content s ++ [NUL]))
                              (repeat NUL PATH_LEN))
                 (list_byte_of_string "/" ++ [NUL]) 2) 0) as [Hz|Hz].
  - by apply path_is_root in Hz.
  - by destruct Htier as [-> | ->].
Qed.

(** X26 — for a RESTRICTED process every resolved path other than "/" is
    refused (-EPERM, folded with the previous verdict): both scans read
    [ap_acc_restr], and no table changes the verdict. *)
Lemma open_audit_restricted_denies m cur s ret_prev :
  get_policy_level m (current_pid cur) = POLICY_LEVEL_RESTRICTED →
  (length (c_content s) < PATH_LEN)%nat →
  c_content s ≠ bytes "/" →
  open_audit m cur {| f_path := Some s |} ret_prev = out ret_prev (- EPERM).
Proof.
  intros Htier Hlen Hroot.
  destruct (open_audit_policed m cur s ret_prev (or_introl Htier) Hlen Hroot)
    as [rest ->].
  rewrite Htier. by destruct (match_paths _ _).
Qed.

(** X25 — for a BASELINE process and a resolved path other than "/",
    [open_audit] applies the deny list first, then the allow list, then
    refuses: -EPERM if a row of [dp_acc_base] is a prefix of the path, else 0
    if a row of [ap_acc_base] is, else -EPERM. *)
Lemma open_audit_baseline_rule m cur s ret_prev :
  get_policy_level m (current_pid cur) = POLICY_LEVEL_BASELINE →
  (length (c_content s) < PATH_LEN)%nat →
  c_content s ≠ bytes "/" →
  let matched (tbl : gmap N accessed_path) :=
    ∃ k E, tbl !! k = Some E ∧ (1 ≤ strlen (path E) PATH_LEN)%nat
           ∧ take (strlen (path E) PATH_LEN) (path E) `prefix_of` c_content s in
  let verdict := open_audit m cur {| f_path := Some s |} ret_prev in
  (matched (dp_acc_base m) → verdict = out ret_prev (- EPERM))
  ∧ (¬ matched (dp_acc_base m) → matched (ap_acc_base m) →
     verdict = out ret_prev 0)
  ∧ (¬ matched (dp_acc_base m) → ¬ matched (ap_acc_base m) →
     verdict = out ret_prev (- EPERM)).
Proof.
  intros Htier Hlen Hroot matched verdict. subst verdict.
  destruct (open_audit_policed m cur s ret_prev (or_intror Htier) Hlen Hroot)
    as [rest ->].
  rewrite Htier.
  pose proof (match_paths_terminated (dp_acc_base m) (c_content s) rest
                (c_content_no_NUL s)) as Hd.
  pose proof (match_paths_terminated (ap_acc_base m) (c_content s) rest
                (c_content_no_NUL s)) as Ha.
  fold (matched (dp_acc_base m)) in Hd. fold (matched (ap_acc_base m)) in Ha.
  revert Hd Ha.
  destruct (match_paths (dp_acc_base m) _);
    destruct (match_paths (ap_acc_base m) _);
    intros Hd Ha; repeat split; intros; try done;
    exfalso; intuition congruence.
Qed.

(** C1 — the RESTRICTED arm of [open_audit], evaluated where it breaks: the
    restricted deny list is empty, the restricted allow list holds "/tmp",
    which is a prefix of the opened path "/tmp/x", and the verdict is
    -EPERM. *)
Theorem open_audit_restricted_allowlisted_denied :
  get_policy_level
    (one_container POLICY_LEVEL_RESTRICTED ∅ {[ 0%N := entry "/tmp" ]} ∅)
    (current_pid (running 300 0)) = POLICY_LEVEL_RESTRICTED
  ∧ dp_acc_restr
      (one_container POLICY_LEVEL_RESTRICTED ∅ {[ 0%N := entry "/tmp" ]} ∅) = ∅
  ∧ (∃ k E,
       ap_acc_restr
         (one_container POLICY_LEVEL_RESTRICTED ∅ {[ 0%N := entry "/tmp" ]} ∅)
         !! k = Some E
       ∧ (1 ≤ strlen (path E) PATH_LEN)%nat
       ∧ take (strlen (path E) PATH_LEN) (path E) `prefix_of` bytes "/tmp/x")
  ∧ open_audit
      (one_container POLICY_LEVEL_RESTRICTED ∅ {[ 0%N := entry "/tmp" ]} ∅)
      (running 300 0) {| f_path := Some (bytes "/tmp/x") |} 0 = - EPERM.
Proof.
  split; [reflexivity|]. split; [reflexivity|]. split; [|reflexivity].
  exists 0%N, (entry "/tmp"). split; [apply lookup_singleton_eq|].
  split; [vm_compute; lia|]. exists (bytes "/x"). reflexivity.
Qed.

(** * Further properties of the programs *)

(** ** Lineage tracker: what a registration does to the maps *)

Lemma only_processes_differ_refl m : only_processes_differ m m.
Proof. by repeat split. Qed.

(** The shape of every result of [handle_new_process]: the maps as they
    were, or the maps with one new row for a child that had none. *)
Lemma handle_new_process_cases m parent child :
  handle_new_process m parent child = (0, m)
  ∨ (handle_new_process m parent child).2 = m
    ∧ ((handle_new_process m parent child).1 = - EPERM
       ∨ (handle_new_process m parent child).1 = - E2BIG)
  ∨ ∃ p m',
      processes m !! pid parent = Some p
      ∧ processes m !! pid child = None
      ∧ is_Some (containers m !! container_id p)
      ∧ handle_new_process m parent child = (0, m')
      ∧ processes m'
        = <[pid child := {| container_id := container_id p |}]> (processes m)
      ∧ only_processes_differ m m'.
Proof.
  unfold handle_new_process.
  destruct (processes m !! pid parent) as [p|] eqn:Hp; [|by left].
  destruct (processes m !! pid child) as [c|] eqn:Hc; [by left|].
  destruct (containers m !! container_id p) as [k|] eqn:Hk;
    [|right; left; by auto].
  unfold bpf_map_update_elem. rewrite Hc.
  destruct (PID_MAX_LIMIT <=? Z.of_nat (size (processes m)));
    [right; left; by auto|].
  right; right. exists p. eexists. by repeat split.
Qed.

(** X1 — inheritance: a child without a row, of a parent bound to a
    container that has a row, is bound to the parent's container when the
    [processes] map has room; the call returns 0 and no other row or map
    changes. *)
Theorem handle_new_process_inherits m parent child p :
  processes m !! pid parent = Some p →
  is_Some (containers m !! container_id p) →
  processes m !! pid child = None →
  Z.of_nat (size (processes m)) < PID_MAX_LIMIT →
  ∃ m', handle_new_process m parent child = (0, m')
        ∧ processes m'
          = <[pid child := {| container_id := container_id p |}]> (processes m)
        ∧ only_processes_differ m m'.
Proof.
  intros Hp [k Hk] Hc Hsize. unfold handle_new_process, bpf_map_update_elem.
  rewrite Hp, Hc, Hk.
  destruct (Z.leb_spec PID_MAX_LIMIT (Z.of_nat (size (processes m)))); [lia|].
  eexists. by repeat split.
Qed.

Lemma handle_new_process_inherits_witness :
  ∃ m', handle_new_process (one_container POLICY_LEVEL_BASELINE ∅ ∅ ∅)
          (task 300) (task 301) = (0, m')
        ∧ processes m'
          = <[301 := {| container_id := 3%N |}]>
              (processes (one_container POLICY_LEVEL_BASELINE ∅ ∅ ∅))
        ∧ only_processes_differ (one_container POLICY_LEVEL_BASELINE ∅ ∅ ∅) m'.
Proof.
  apply (handle_new_process_inherits (one_container POLICY_LEVEL_BASELINE ∅ ∅ ∅)
           (task 300) (task 301) {| container_id := 3%N |}).
  - reflexivity.
  - eexists. reflexivity.
  - reflexivity.
  - vm_compute. reflexivity.
Defined.

(** X2 — a registration never removes or rewrites a row and touches no
    other map: afterwards every map but [processes] is as before, every row
    of [processes] is still there unchanged, and only the child's key can
    have become bound. *)
Theorem handle_new_process_frame m parent child :
  only_processes_differ m (handle_new_process m parent child).2
  ∧ processes m ⊆ processes (handle_new_process m parent child).2
  ∧ ∀ q, q ≠ pid child →
         processes (handle_new_process m parent child).2 !! q
         = processes m !! q.
Proof.
  destruct (handle_new_process_cases m parent child)
    as [-> | [[-> _] | (p & m' & _ & Hc & _ & -> & Hm' & Hrest)]]; cbn [snd];
    try (split; [apply only_processes_differ_refl|]; by split).
  split; [done|]. rewrite Hm'. split.
  - by apply insert_subseteq.
  - intros q Hq. by rewrite lookup_insert_ne.
Qed.

(** X3 — a failed registration changes nothing, and the only error codes
    are -EPERM (the parent's container has no row) and -E2BIG (the
    [processes] map is full). *)
Theorem handle_new_process_errors m parent child :
  (handle_new_process m parent child).1 = 0
  ∨ (handle_new_process m parent child).2 = m
    ∧ ((handle_new_process m parent child).1 = - EPERM
       ∨ (handle_new_process m parent child).1 = - E2BIG).
Proof.
  destruct (handle_new_process_cases m parent child)
    as [-> | [H | (p & m' & _ & _ & _ & -> & _)]]; auto.
Qed.

(** X4 — registrations keep the maps consistent: if every process row
    names a container that has a row, the same holds after
    [handle_new_process]. *)
Theorem handle_new_process_consistent m parent child :
  consistent m → consistent (handle_new_process m parent child).2.
Proof.
  intros Hm.
  destruct (handle_new_process_cases m parent child)
    as [-> | [[-> _] | (p & m' & Hp & Hc & Hk & -> & Hm' & Hrest)]]; cbn [snd];
    try done.
  intros q r. rewrite Hm'. destruct Hrest as (_ & -> & _).
  destruct (decide (pid child = q)) as [<-|Hq].
  - rewrite lookup_insert_eq. by intros [= <-].
  - rewrite lookup_insert_ne by done. apply Hm.
Qed.

Lemma handle_new_process_consistent_witness :
  consistent (handle_new_process (one_container POLICY_LEVEL_BASELINE ∅ ∅ ∅)
                (task 300) (task 301)).2.
Proof.
  apply handle_new_process_consistent.
  intros q r H. unfold one_container in H. cbn [processes] in H.
  apply lookup_singleton_Some in H as [<- <-]. eexists. reflexivity.
Defined.

(** ** Lineage tracker and enforcement *)


Lemma handle_new_process_level m parent child p m' :
  handle_new_process m parent child = (0, m') →
  processes m !! pid parent = Some p →
  processes m !! pid child = None →
  get_policy_level m' (pid child) = get_policy_level m (pid parent)
  ∧ (∀ q, q ≠ pid child → get_policy_level m' q = get_policy_level m q)
  ∧ only_processes_differ m m'.
Proof.
  intros Hcall Hp Hc.
  destruct (handle_new_process_cases m parent child)
    as [H | [[_ [H|H]] | (p' & m'' & Hp' & _ & _ & H & Hm' & Hrest)]];
    rewrite Hcall in H; try done.
  - injection H as ->. unfold get_policy_level. rewrite Hc.
    split; [|split; [done | apply only_processes_differ_refl]].
    (* the child has no row, so the call cannot have left the maps as they were *)
    revert Hcall. unfold handle_new_process, bpf_map_update_elem.
    rewrite Hp, Hc. destruct (containers m !! container_id p); [|done].
    destruct (_ <=? _); [done|]. intros [= Hm].
    apply (f_equal (λ x, processes x !! pid child)) in Hm. cbn in Hm.
    by rewrite lookup_insert_eq, Hc in Hm.
  - injection H as ->. rewrite Hp in Hp'. injection Hp' as <-.
    pose proof Hrest as (_ & Hk & _).
    unfold get_policy_level. rewrite Hm', Hk, Hp. split; [|split; [|done]].
    + by rewrite lookup_insert_eq.
    + intros q Hq. by rewrite lookup_insert_ne.
Qed.

(** X5 — the child inherits the policy level: after a registration that
    returned 0 for a child that had no row, the resolver gives the child the
    level it gives the parent, and gives every other pid the level it had. *)
Theorem handle_new_process_inherits_level m parent child p m' :
  handle_new_process m parent child = (0, m') →
  processes m !! pid parent = Some p →
  processes m !! pid child = None →
  get_policy_level m' (pid child) = get_policy_level m (pid parent)
  ∧ ∀ q, q ≠ pid child → get_policy_level m' q = get_policy_level m q.
Proof.
  intros Hcall Hp Hc.
  destruct (handle_new_process_level m parent child p m' Hcall Hp Hc)
    as (H1 & H2 & _). done.
Qed.

Lemma handle_new_process_inherits_level_witness :
  get_policy_level
    (handle_new_process (one_container POLICY_LEVEL_BASELINE ∅ ∅ ∅)
       (task 300) (task 301)).2 (pid (task 301))
  = get_policy_level (one_container POLICY_LEVEL_BASELINE ∅ ∅ ∅) (pid (task 300)).
Proof.
  apply (proj1 (handle_new_process_inherits_level
                  (one_container POLICY_LEVEL_BASELINE ∅ ∅ ∅) (task 300) (task 301)
                  {| container_id := 3%N |} _ eq_refl eq_refl eq_refl)).
Defined.



(** ** The two event sources *)

(** Delivering the same event again gives the same result and the same
    maps as the first delivery. *)
Lemma handle_new_process_replay m parent child :
  handle_new_process (handle_new_process m parent child).2 parent child
  = handle_new_process m parent child.
Proof.
  destruct (handle_new_process_cases m parent child)
    as [H | [[H _] | (p & m' & _ & _ & _ & H & Hm' & _)]].
  - rewrite H. cbn [snd]. done.
  - by rewrite H.
  - rewrite H. cbn [snd].
    apply handle_new_process_registered. rewrite Hm', lookup_insert_eq. by eexists.
Qed.

(** X7 — the fork tracepoint and the task_alloc hook register alike and
    tolerate each other: for the same parent and child both leave the same
    maps, whatever the previous verdict, and whichever of the two runs
    second returns what it would have returned alone and changes nothing
    more. *)
Theorem event_sources_agree m parent child clone_flags ret_prev :
  (Prototype.clone_audit m child (Some parent) clone_flags ret_prev).2
  = (Prototype.sched_process_fork m (Some parent) (Some child)).2
  ∧ Prototype.sched_process_fork
      (Prototype.clone_audit m child (Some parent) clone_flags ret_prev).2
      (Some parent) (Some child)
    = Prototype.sched_process_fork m (Some parent) (Some child)
  ∧ Prototype.clone_audit
      (Prototype.sched_process_fork m (Some parent) (Some child)).2
      child (Some parent) clone_flags ret_prev
    = Prototype.clone_audit m child (Some parent) clone_flags ret_prev.
Proof.
  unfold Prototype.clone_audit, Prototype.sched_process_fork.
  split; [by destruct (handle_new_process m parent child)|]. split.
  - rewrite <- (handle_new_process_replay m parent child) at 2.
    by destruct (handle_new_process m parent child).
  - by rewrite handle_new_process_replay.
Qed.

(** X8 — [clone_audit] and the previous verdict: a task whose parent
    pointer is NULL gets -EPERM with the maps untouched, whatever the
    previous verdict; otherwise a non-zero previous verdict is returned, and
    the registration is made all the same. *)
Theorem clone_audit_previous_verdict m task parent clone_flags ret_prev :
  Prototype.clone_audit m task None clone_flags ret_prev = (- EPERM, m)
  ∧ Prototype.clone_audit m task (Some parent) clone_flags ret_prev
    = (out ret_prev (handle_new_process m parent task).1,
       (handle_new_process m parent task).2)
  ∧ (ret_prev ≠ 0 →
     Prototype.clone_audit m task (Some parent) clone_flags ret_prev
     = (ret_prev, (handle_new_process m parent task).2)).
Proof.
  unfold Prototype.clone_audit. split; [done|].
  destruct (handle_new_process m parent task) as [r m']. cbn [fst snd].
  split; [done|]. intros H. by rewrite out_prev.
Qed.

Lemma clone_audit_previous_verdict_witness :
  Prototype.clone_audit (one_container POLICY_LEVEL_BASELINE ∅ ∅ ∅)
    (task 301) (Some (task 300)) 0 (-13)
  = (-13, (handle_new_process (one_container POLICY_LEVEL_BASELINE ∅ ∅ ∅)
             (task 300) (task 301)).2).
Proof.
  apply (proj2 (proj2 (clone_audit_previous_verdict
                         (one_container POLICY_LEVEL_BASELINE ∅ ∅ ∅)
                         (task 301) (task 300) 0 (-13)))).
  lia.
Defined.

(** ** [hash] *)

Lemma hash_loop_sum (char_val : byte → Z) acc str len :
  0 ≤ acc < 2 ^ 32 →
  Prototype.hash_loop char_val acc str len
  = (acc + foldr Z.add 0 (char_val <$> take len (c_content str))) mod 2 ^ 32.
Proof.
  revert acc str. induction len as [|len IH]; intros acc str Hacc.
  - cbn. rewrite Z.add_0_r, Z.mod_small; done.
  - destruct str as [|b str]; cbn [Prototype.hash_loop hd tl c_content].
    + cbn. rewrite Z.add_0_r, Z.mod_small; done.
    + destruct (byte_eqb_spec b NUL) as [->|Hb].
      * cbn. rewrite Z.add_0_r, Z.mod_small; done.
      * rewrite IH by (apply Z.mod_pos_bound; lia).
        cbn [take fmap list_fmap foldr].
        rewrite Zplus_mod_idemp_l. f_equal. lia.
Qed.

Lemma hash_sum (char_val : byte → Z) str len :
  Prototype.hash char_val str len
  = foldr Z.add 0 (char_val <$> take len (c_content str)) mod 2 ^ 32.
Proof. unfold Prototype.hash. rewrite hash_loop_sum by lia. done. Qed.

(** X9 — [hash] is the sum, modulo 2^32, of the characters before the
    first NUL among the first [len] bytes; the bytes after that NUL, or past
    [len], do not count, and the result is a [u32]. *)
Theorem hash_is_bounded_sum (char_val : byte → Z) str len :
  Prototype.hash char_val str len
  = foldr Z.add 0 (char_val <$> take len (c_content str)) mod 2 ^ 32
  ∧ 0 ≤ Prototype.hash char_val str len < 2 ^ 32
  ∧ Prototype.hash char_val str len
    = Prototype.hash char_val (take len (c_content str)) len.
Proof.
  split; [apply hash_sum|]. split.
  - rewrite hash_sum. apply Z.mod_pos_bound. lia.
  - rewrite !hash_sum.
    assert (∀ s, NUL ∉ s → c_content s = s) as Hid.
    { induction s as [|b s IHs]; [done|]. intros [Hb Hs]%not_elem_of_cons.
      cbn. destruct (byte_eqb_spec b NUL); [done|]. by rewrite IHs. }
    rewrite (Hid (take len (c_content str)))
      by apply take_no_NUL, c_content_no_NUL.
    by rewrite take_take, Nat.min_id.
Qed.

Lemma foldr_add_perm (l k : list Z) : l ≡ₚ k → foldr Z.add 0 l = foldr Z.add 0 k.
Proof. induction 1; cbn; lia. Qed.

(** X10 — [hash] does not see the order of the characters: two names whose
    hashed bytes are permutations of each other get the same key. *)
Theorem hash_permutation_collision (char_val : byte → Z) str1 len1 str2 len2 :
  take len1 (c_content str1) ≡ₚ take len2 (c_content str2) →
  Prototype.hash char_val str1 len1 = Prototype.hash char_val str2 len2.
Proof.
  intros Hperm. rewrite !hash_sum. f_equal.
  apply foldr_add_perm. by apply fmap_Permutation.
Qed.

Lemma hash_permutation_collision_witness :
  Prototype.hash signed_char (bytes "runc") 16
  = Prototype.hash signed_char (bytes "crun") 16.
Proof.
  apply hash_permutation_collision.
  exact (Permutation_sym (Permutation_cons_append (bytes "run") "c"%byte)).
Defined.

(** ** The path buffer of the older program *)

Lemma stored_lookup base bs arr k :
  stored base bs arr !! k
  = if decide (base ≤ k < base + Z.of_nat (length bs))
    then bs !! Z.to_nat (k - base) else arr !! k.
Proof.
  revert base arr. induction bs as [|b bs IH]; intros base arr; cbn [stored length].
  - case_decide; [lia | done].
  - rewrite IH. repeat case_decide; try lia.
    + replace (Z.to_nat (k - base)) with (S (Z.to_nat (k - (base + 1)))) by lia.
      done.
    + assert (k = base) as -> by lia. rewrite lookup_insert_eq.
      by replace (Z.to_nat (base - base)) with O by lia.
    + by rewrite lookup_insert_ne by lia.
Qed.

Lemma write_name_codes buf key name len :
  (Prototype.write_name buf key name len).1 = 0
  ∨ (Prototype.write_name buf key name len).1 = - E2BIG.
Proof.
  revert buf key len. induction name as [|c name IH]; intros buf key len;
    cbn [Prototype.write_name]; [by left|].
  destruct (len =? 0); [by left|]. destruct (Byte.eqb c NUL); [by left|].
  unfold Prototype.array_update.
  destruct (PATH_MAX <=? (key + 1) mod 2 ^ 32); [by right|]. cbn. apply IH.
Qed.

Lemma write_name_ok buf key name len :
  0 ≤ key → 0 ≤ len → key + len < PATH_MAX →
  Prototype.write_name buf key name len
  = (0, stored (key + 1) (take (Z.to_nat len) (c_content name)) buf).
Proof.
  revert buf key len. induction name as [|c name IH]; intros buf key len Hk Hl Hfit;
    cbn [Prototype.write_name c_content].
  - by rewrite take_nil.
  - destruct (Z.eqb_spec len 0) as [->|Hlen]; [done|].
    destruct (byte_eqb_spec c NUL) as [->|Hc]; [by rewrite take_nil|].
    unfold PATH_MAX in *. rewrite (Z.mod_small (key + 1)) by lia.
    unfold Prototype.array_update, PATH_MAX.
    destruct (Z.leb_spec 4096 (key + 1)); [lia|]. cbn [Z.ltb Z.compare].
    rewrite IH by (unfold PATH_MAX; lia).
    replace (Z.to_nat len) with (S (Z.to_nat (len - 1))) by lia. done.
Qed.

(** X11 — [prepend_name] when the name fits: with [len + 1] bytes left in
    the buffer it returns 0, lowers [*buf_size] by [len + 1] and stores, from
    the new [*buf_size] on, a slash and then the name's bytes up to its first
    NUL or [len]; every other slot keeps its byte. *)
Theorem prepend_name_fits buf buf_size dname :
  0 ≤ Prototype.len dname →
  Prototype.len dname + 1 ≤ buf_size ≤ PATH_MAX →
  Prototype.prepend_name buf buf_size dname
  = (0, buf_size - (Prototype.len dname + 1),
     stored (buf_size - (Prototype.len dname + 1))
       ("/"%byte :: take (Z.to_nat (Prototype.len dname))
                      (c_content (Prototype.name dname)))
       buf).
Proof.
  intros Hlen Hfit. unfold Prototype.prepend_name, PATH_MAX in *.
  rewrite (Z.mod_small (Prototype.len dname + 1)) by lia.
  rewrite (Z.mod_small (buf_size - _) (2 ^ 64)) by lia.
  destruct (Z.ltb_spec (buf_size - (Prototype.len dname + 1)) 0); [lia|].
  rewrite (Z.mod_small (buf_size - _) (2 ^ 32)) by lia.
  unfold Prototype.array_update, PATH_MAX.
  destruct (Z.leb_spec 4096 (buf_size - (Prototype.len dname + 1))); [lia|].
  cbn [Z.ltb Z.compare].
  rewrite write_name_ok by (unfold PATH_MAX; lia). done.
Qed.

Lemma prepend_name_fits_witness :
  Prototype.prepend_name ∅ 4096 {| Prototype.name := bytes "mnt"; Prototype.len := 3 |}
  = (0, 4092, stored 4092 (bytes "/mnt") ∅).
Proof.
  apply (prepend_name_fits ∅ 4096
           {| Prototype.name := bytes "mnt"; Prototype.len := 3 |});
    cbn; unfold PATH_MAX; lia.
Defined.

(** X12 — [prepend_name] never reports -ENAMETOOLONG: [*buf_size] is
    unsigned, so the test [*buf_size < 0] never holds; the only results are 0
    and the -E2BIG of a refused buffer update.  A name of at most PATH_MAX
    bytes that does not fit gets -E2BIG, the buffer untouched and [*buf_size]
    wrapped around. *)
Theorem prepend_name_errors buf buf_size dname :
  ((Prototype.prepend_name buf buf_size dname).1.1 = 0
   ∨ (Prototype.prepend_name buf buf_size dname).1.1 = - E2BIG)
  ∧ (0 ≤ Prototype.len dname ≤ PATH_MAX →
     0 ≤ buf_size < Prototype.len dname + 1 →
     Prototype.prepend_name buf buf_size dname
     = (- E2BIG, 2 ^ 64 + buf_size - (Prototype.len dname + 1), buf)).
Proof.
  split.
  - unfold Prototype.prepend_name.
    destruct (Z.ltb_spec ((buf_size - (Prototype.len dname + 1) mod 2 ^ 32)
                            mod 2 ^ 64) 0) as [Hneg|_].
    { pose proof (Z.mod_pos_bound (buf_size - (Prototype.len dname + 1) mod 2 ^ 32)
                    (2 ^ 64)). lia. }
    unfold Prototype.array_update. destruct (PATH_MAX <=? _); [by right|].
    cbn [Z.ltb Z.compare].
    pose proof (write_name_codes
                  (<[((buf_size - (Prototype.len dname + 1) mod 2 ^ 32)
                        mod 2 ^ 64) mod 2 ^ 32 := "/"%byte]> buf)
                  (((buf_size - (Prototype.len dname + 1) mod 2 ^ 32)
                      mod 2 ^ 64) mod 2 ^ 32)
                  (Prototype.name dname) (Prototype.len dname)) as Hw.
    by destruct (Prototype.write_name _ _ _ _).
  - intros Hlen Hsize. unfold Prototype.prepend_name, PATH_MAX in *.
    rewrite (Z.mod_small (Prototype.len dname + 1)) by lia.
    replace ((buf_size - (Prototype.len dname + 1)) mod 2 ^ 64)
      with (2 ^ 64 + buf_size - (Prototype.len dname + 1)).
    2:{ apply (Z.mod_unique _ _ (-1)); lia. }
    destruct (Z.ltb_spec (2 ^ 64 + buf_size - (Prototype.len dname + 1)) 0); [lia|].
    replace ((2 ^ 64 + buf_size - (Prototype.len dname + 1)) mod 2 ^ 32)
      with (2 ^ 32 + buf_size - (Prototype.len dname + 1)).
    2:{ apply (Z.mod_unique _ _ (2 ^ 32 - 1)); lia. }
    unfold Prototype.array_update, PATH_MAX.
    by destruct (Z.leb_spec 4096 (2 ^ 32 + buf_size - (Prototype.len dname + 1)));
      [|lia].
Qed.

Lemma prepend_name_errors_witness :
  Prototype.prepend_name ∅ 2 {| Prototype.name := bytes "mnt"; Prototype.len := 3 |}
  = (- E2BIG, 2 ^ 64 - 2, ∅).
Proof.
  apply (proj2 (prepend_name_errors ∅ 2
                  {| Prototype.name := bytes "mnt"; Prototype.len := 3 |}));
    cbn; unfold PATH_MAX; lia.
Defined.

(** One round of the loop of [dentry_full_path], for a name that reserves
    [k] bytes, [1 ≤ k ≤ PATH_MAX]: it fails, or it lowers [*buf_size] by
    [k]. *)
Lemma prepend_name_round buf size dname :
  1 ≤ (Prototype.len dname + 1) mod 2 ^ 32 ≤ PATH_MAX →
  0 ≤ size ≤ PATH_MAX →
  (Prototype.prepend_name buf size dname).1.1 = - E2BIG
  ∨ (Prototype.prepend_name buf size dname).1.1 = 0
    ∧ (Prototype.prepend_name buf size dname).1.2
      = size - (Prototype.len dname + 1) mod 2 ^ 32
    ∧ (Prototype.len dname + 1) mod 2 ^ 32 ≤ size.
Proof.
  unfold Prototype.prepend_name, PATH_MAX.
  generalize ((Prototype.len dname + 1) mod 2 ^ 32). intros k Hk Hsize.
  destruct (Z.le_gt_cases k size) as [Hfit|Hover].
  - rewrite (Z.mod_small (size - k) (2 ^ 64)) by lia.
    destruct (Z.ltb_spec (size - k) 0); [lia|].
    rewrite (Z.mod_small (size - k) (2 ^ 32)) by lia.
    unfold Prototype.array_update, PATH_MAX.
    destruct (Z.leb_spec 4096 (size - k)); [by left|]. cbn [Z.ltb Z.compare].
    pose proof (write_name_codes (<[size - k := "/"%byte]> buf) (size - k)
                  (Prototype.name dname) (Prototype.len dname)) as Hw.
    destruct (Prototype.write_name _ _ _ _) as [err buf']. cbn [fst snd] in *.
    destruct Hw as [-> | ->]; [right | left]; done.
  - left.
    replace ((size - k) mod 2 ^ 64) with (2 ^ 64 + size - k)
      by (apply (Z.mod_unique _ _ (-1)); lia).
    destruct (Z.ltb_spec (2 ^ 64 + size - k) 0); [lia|].
    replace ((2 ^ 64 + size - k) mod 2 ^ 32) with (2 ^ 32 + size - k)
      by (apply (Z.mod_unique _ _ (2 ^ 32 - 1)); lia).
    unfold Prototype.array_update, PATH_MAX.
    by destruct (Z.leb_spec 4096 (2 ^ 32 + size - k)); [|lia].
Qed.

(** The first round, for a name that reserves no byte ([len + 1] wraps to
    0) or more than PATH_MAX bytes. *)
Lemma prepend_name_first_round_fails buf dname :
  ¬ 1 ≤ (Prototype.len dname + 1) mod 2 ^ 32 ≤ PATH_MAX →
  (Prototype.prepend_name buf PATH_MAX dname).1.1 = - E2BIG.
Proof.
  unfold Prototype.prepend_name, PATH_MAX.
  pose proof (Z.mod_pos_bound (Prototype.len dname + 1) (2 ^ 32) ltac:(lia)) as Hb.
  revert Hb. generalize ((Prototype.len dname + 1) mod 2 ^ 32). intros k Hb Hk.
  destruct (decide (k = 0)) as [->|Hk0].
  - cbn. done.
  - replace ((4096 - k) mod 2 ^ 64) with (2 ^ 64 + 4096 - k)
      by (apply (Z.mod_unique _ _ (-1)); lia).
    destruct (Z.ltb_spec (2 ^ 64 + 4096 - k) 0); [lia|].
    replace ((2 ^ 64 + 4096 - k) mod 2 ^ 32) with (2 ^ 32 + 4096 - k)
      by (apply (Z.mod_unique _ _ (2 ^ 32 - 1)); lia).
    unfold Prototype.array_update, PATH_MAX.
    by destruct (Z.leb_spec 4096 (2 ^ 32 + 4096 - k)); [|lia].
Qed.

Lemma dentry_full_path_loop_fails fuel buf size d :
  Prototype.d_addr d ≠ Prototype.d_parent d →
  1 ≤ (Prototype.len (Prototype.d_name d) + 1) mod 2 ^ 32 ≤ PATH_MAX →
  0 ≤ size ≤ PATH_MAX →
  (Z.to_nat size < fuel)%nat →
  ∃ buf', Prototype.dentry_full_path_loop fuel buf size d = Some (- E2BIG, buf').
Proof.
  intros Hroot Hk. revert buf size.
  induction fuel as [|fuel IH]; intros buf size Hsize Hfuel; [lia|].
  cbn [Prototype.dentry_full_path_loop].
  destruct (Z.eqb_spec (Prototype.d_addr d) (Prototype.d_parent d)); [done|].
  destruct (prepend_name_round buf size (Prototype.d_name d) Hk Hsize)
    as [Herr | (Herr & Hsize' & Hfit)];
    destruct (Prototype.prepend_name buf size (Prototype.d_name d))
      as [[err size'] buf1]; cbn [fst snd] in *; subst.
  - by eexists.
  - cbn [Z.eqb negb]. apply IH; lia.
Qed.

Lemma dentry_full_path_root fuel buf d :
  Prototype.d_addr d = Prototype.d_parent d →
  Prototype.dentry_full_path (S fuel) buf d = Some (0, buf).
Proof.
  intros Hroot. unfold Prototype.dentry_full_path. cbn. rewrite Hroot.
  by rewrite Z.eqb_refl.
Qed.

Lemma dentry_full_path_nonroot fuel buf d :
  Prototype.d_addr d ≠ Prototype.d_parent d →
  (Z.to_nat PATH_MAX < fuel)%nat →
  ∃ buf', Prototype.dentry_full_path fuel buf d = Some (- E2BIG, buf').
Proof.
  intros Hroot Hfuel. unfold Prototype.dentry_full_path.
  destruct (decide (1 ≤ (Prototype.len (Prototype.d_name d) + 1) mod 2 ^ 32
                    ≤ PATH_MAX)) as [Hk|Hk].
  - apply dentry_full_path_loop_fails; unfold PATH_MAX in *; try done; lia.
  - destruct fuel as [|fuel]; [lia|]. cbn [Prototype.dentry_full_path_loop].
    destruct (Z.eqb_spec (Prototype.d_addr d) (Prototype.d_parent d)); [done|].
    pose proof (prepend_name_first_round_fails buf (Prototype.d_name d) Hk) as Herr.
    destruct (Prototype.prepend_name buf PATH_MAX (Prototype.d_name d))
      as [[err size'] buf1]; cbn [fst snd] in *; subst. by eexists.
Qed.

(** X13 — [dentry_full_path] never leaves the dentry it was given: for a
    dentry that is its own parent it returns 0 at once and writes nothing;
    for any other dentry it prepends the same name again and again and, within
    PATH_MAX + 1 rounds, ends with the -E2BIG of a refused buffer update. *)
Theorem dentry_full_path_result fuel buf d :
  (Prototype.d_addr d = Prototype.d_parent d →
   Prototype.dentry_full_path (S fuel) buf d = Some (0, buf))
  ∧ (Prototype.d_addr d ≠ Prototype.d_parent d →
     (Z.to_nat PATH_MAX < fuel)%nat →
     ∃ buf', Prototype.dentry_full_path fuel buf d = Some (- E2BIG, buf')).
Proof.
  split; [apply dentry_full_path_root | apply dentry_full_path_nonroot].
Qed.

Lemma dentry_full_path_result_witness :
  Prototype.dentry_full_path 1 ∅
    {| Prototype.d_addr := 10; Prototype.d_parent := 10;
       Prototype.d_name :=
         {| Prototype.name := bytes "/"; Prototype.len := 1 |} |}
  = Some (0, ∅)
  ∧ ∃ buf',
      Prototype.dentry_full_path (S (Z.to_nat PATH_MAX)) ∅
        {| Prototype.d_addr := 10; Prototype.d_parent := 20;
           Prototype.d_name :=
             {| Prototype.name := bytes "mnt"; Prototype.len := 3 |} |}
      = Some (- E2BIG, buf').
Proof.
  split.
  - by apply (proj1 (dentry_full_path_result 0 ∅ _)).
  - apply (proj2 (dentry_full_path_result (S (Z.to_nat PATH_MAX)) ∅ _));
      [cbn; lia | lia].
Defined.

(** X14 — [mount_audit] of the older program: a NULL destination dentry
    and every dentry that is not its own parent get -EPERM, a dentry that is
    its own parent gets 0, each folded with the previous verdict. *)
Theorem prototype_mount_audit_verdict fuel buf d ret_prev :
  Prototype.mount_audit fuel buf None ret_prev
  = Some (out ret_prev (- EPERM), buf)
  ∧ (Prototype.d_addr d = Prototype.d_parent d →
     Prototype.mount_audit (S fuel) buf (Some d) ret_prev
     = Some (out ret_prev 0, buf))
  ∧ (Prototype.d_addr d ≠ Prototype.d_parent d →
     (Z.to_nat PATH_MAX < fuel)%nat →
     ∃ buf', Prototype.mount_audit fuel buf (Some d) ret_prev
             = Some (out ret_prev (- EPERM), buf')).
Proof.
  unfold Prototype.mount_audit. split; [done|]. split.
  - intros Hroot. by rewrite dentry_full_path_root.
  - intros Hroot Hfuel.
    destruct (dentry_full_path_nonroot fuel buf d Hroot Hfuel) as [buf' ->].
    by exists buf'.
Qed.

Lemma prototype_mount_audit_verdict_witness :
  ∃ buf',
    Prototype.mount_audit (S (Z.to_nat PATH_MAX)) ∅
      (Some {| Prototype.d_addr := 10; Prototype.d_parent := 20;
               Prototype.d_name :=
                 {| Prototype.name := bytes "mnt"; Prototype.len := 3 |} |}) 0
    = Some (- EPERM, buf').
Proof.
  apply (proj2 (proj2 (prototype_mount_audit_verdict
                         (S (Z.to_nat PATH_MAX)) ∅ _ 0))); [cbn; lia | lia].
Defined.

(** ** Scanning a paths table *)

Lemma for_each_check_paths_from rows data :
  found (for_each_elem check_paths rows data)
  = found data
    || found (for_each_elem check_paths rows
                {| ctx_path := ctx_path data; found := false |})
  ∧ ctx_path (for_each_elem check_paths rows data) = ctx_path data.
Proof.
  revert data. induction rows as [|[k e] rows IH]; intros data;
    cbn [for_each_elem].
  - by rewrite orb_false_r.
  - unfold check_paths. cbn [ctx_path found].
    destruct (strlen (path e) PATH_LEN <? 1)%nat; [apply IH|].
    destruct (strcmp (path e) (ctx_path data) (strlen (path e) PATH_LEN) =? 0);
      cbn; [by rewrite orb_true_r | apply IH].
Qed.

(** X15 — a scan only ever raises [found] and never touches the probe:
    after [bpf_for_each_map_elem] with [check_paths], [found] is its value
    before the scan or-ed with the matcher's answer, so a scan that starts
    with [found] set reports a match whatever the table holds. *)
Theorem scan_keeps_found (T : gmap N accessed_path) data :
  found (bpf_for_each_map_elem T check_paths data)
  = found data || match_paths T (ctx_path data)
  ∧ ctx_path (bpf_for_each_map_elem T check_paths data) = ctx_path data.
Proof. apply for_each_check_paths_from. Qed.

Lemma match_paths_mono (T T' : gmap N accessed_path) P :
  T ⊆ T' → match_paths T P = true → match_paths T' P = true.
Proof.
  intros Hsub. rewrite !match_paths_iff. intros (k & E & Hk & H).
  exists k, E. split; [|done]. by eapply lookup_weaken.
Qed.

Lemma c_content_app_prefix s x : c_content s `prefix_of` c_content (s ++ x).
Proof.
  induction s as [|b s IH]; cbn; [apply prefix_nil|].
  destruct (Byte.eqb b NUL); [done|]. by apply prefix_cons.
Qed.

(** ** mount: how the verdict depends on its inputs *)

(** The two reads of [mount_audit] do not fail on a readable string. *)
Lemma mount_audit_readable m cur ts ds s t flags ret_prev tbl :
  mount_allowlist_of m (get_policy_level m (current_pid cur)) tbl →
  mount_audit m cur ts ds (Str s) (Str t) flags ret_prev
  = out ret_prev
      (if strcmp (bpf_probe_read_kernel_str ts MOUNT_TYPE_LEN (Str t)).2
            (MOUNT_TYPE_BIND ++ [NUL]) MOUNT_TYPE_LEN =? 0
       then
         if match_paths tbl
              (take (PATH_LEN - 1) (c_content s) ++ NUL
                 :: drop (length (take (PATH_LEN - 1) (c_content s) ++ [NUL])) ds)
         then 0 else - EPERM
       else 0).
Proof.
  intros Htbl.
  destruct (Z.eqb_spec
              (strcmp (bpf_probe_read_kernel_str ts MOUNT_TYPE_LEN (Str t)).2
                 (MOUNT_TYPE_BIND ++ [NUL]) MOUNT_TYPE_LEN) 0) as [Hz|Hz].
  - apply mount_audit_bind_type; [done|]. by apply (type_is_bind ts).
  - apply mount_audit_other_type.
    + destruct Htbl as [[-> _] | [-> _]]; auto.
    + intros Ht. by apply (type_is_bind ts) in Ht.
Qed.

Lemma mount_allowlist_cases m cur :
  (∃ tbl, mount_allowlist_of m (get_policy_level m (current_pid cur)) tbl)
  ∨ get_policy_level m (current_pid cur) = POLICY_LEVEL_LOOKUP_ERR
  ∨ get_policy_level m (current_pid cur) = POLICY_LEVEL_NOT_FOUND
  ∨ get_policy_level m (current_pid cur) = POLICY_LEVEL_PRIVILEGED.
Proof.
  unfold mount_allowlist_of.
  destruct (get_policy_level m (current_pid cur)); eauto 6.
Qed.

(** X16 — more rows in the mount allow lists never refuse a mount that
    was allowed: if [m'] holds at least the rows of [m] in both lists and the
    same processes and containers, every call that [m] answers with 0 is
    answered with 0 by [m']. *)
Theorem mount_audit_allows_more m m' cur ts ds dev_name type flags :
  allows_more m m' →
  mount_audit m cur ts ds dev_name type flags 0 = 0 →
  mount_audit m' cur ts ds dev_name type flags 0 = 0.
Proof.
  intros (Hprocs & Hconts & Hr & Hb).
  assert (get_policy_level m' (current_pid cur)
          = get_policy_level m (current_pid cur)) as Hlvl.
  { unfold get_policy_level. by rewrite Hprocs, Hconts. }
  destruct (mount_allowlist_cases m cur) as [[tbl Htbl] | Hother].
  - assert (∃ tbl', mount_allowlist_of m' (get_policy_level m' (current_pid cur)) tbl'
                    ∧ tbl ⊆ tbl') as (tbl' & Htbl' & Hsub).
    { rewrite Hlvl. destruct Htbl as [[Ht ->] | [Ht ->]];
        eexists; (split; [|eassumption]); [left | right]; done. }
    destruct type as [| |t]; destruct dev_name as [| |s];
      try (unfold mount_audit; rewrite Hlvl;
           by destruct Htbl as [[-> _] | [-> _]]).
    rewrite (mount_audit_readable m _ _ _ _ _ _ _ tbl Htbl).
    rewrite (mount_audit_readable m' _ _ _ _ _ _ _ tbl' Htbl').
    rewrite !out_0. destruct (_ =? 0); [|done].
    destruct (match_paths tbl _) eqn:Hm; [|done].
    by rewrite (match_paths_mono tbl tbl' _ Hsub Hm).
  - unfold mount_audit. rewrite Hlvl. by destruct Hother as [-> | [-> | ->]].
Qed.

Lemma mount_audit_allows_more_witness :
  mount_audit (one_container POLICY_LEVEL_RESTRICTED
                 {[ 0%N := entry "/var/lib/containers";
                    1%N := entry "/run" ]} ∅ ∅)
    (running 300 0) [] [] (Str (bytes "/var/lib/containers/foo"))
    (Str (bytes "bind")) 0 0 = 0.
Proof.
  apply (mount_audit_allows_more
           (one_container POLICY_LEVEL_RESTRICTED
              {[ 0%N := entry "/var/lib/containers" ]} ∅ ∅)).
  - repeat split; cbn [one_container ap_mnt_restr ap_mnt_base];
      apply map_subseteq_spec; intros k v [<- <-]%lookup_singleton_Some;
      reflexivity.
  - reflexivity.
Defined.

Lemma bool_eq_of_iff (a b : bool) : (a = true ↔ b = true) → a = b.
Proof. destruct a, b; intuition congruence. Qed.

(** The answer of a scan over the copy of [dev_name] does not depend on
    what the buffer held before the read. *)
Lemma match_paths_rest_irrelevant (tbl : gmap N accessed_path) body rest rest' :
  NUL ∉ body →
  match_paths tbl (body ++ NUL :: rest) = match_paths tbl (body ++ NUL :: rest').
Proof.
  intros Hbody. apply bool_eq_of_iff. by rewrite !match_paths_terminated.
Qed.

(** X17 — everything below an allowed source is allowed: if a mount from
    [s] is allowed, so is, for the same caller and type, a mount from any
    path that continues [s]. *)
Theorem mount_audit_allows_longer_source m cur ts ds s x type flags :
  mount_audit m cur ts ds (Str s) type flags 0 = 0 →
  mount_audit m cur ts ds (Str (s ++ x)) type flags 0 = 0.
Proof.
  destruct (mount_allowlist_cases m cur) as [[tbl Htbl] | Hother].
  - destruct type as [| |t];
      try (unfold mount_audit; by destruct Htbl as [[-> _] | [-> _]]).
    rewrite !(mount_audit_readable m _ _ _ _ _ _ _ tbl Htbl), !out_0.
    destruct (_ =? 0); [|done].
    destruct (match_paths tbl (take (PATH_LEN - 1) (c_content s) ++ _)) eqn:Hs;
      [intros _ | done].
    apply match_paths_dev_name in Hs as (k & E & Hk & Hlen & Hpre).
    assert (match_paths tbl
              (take (PATH_LEN - 1) (c_content (s ++ x)) ++ NUL
                 :: drop (length (take (PATH_LEN - 1) (c_content (s ++ x))
                                    ++ [NUL])) ds) = true) as ->; [|done].
    apply match_paths_dev_name. exists k, E. split; [done|]. split; [done|].
    etrans; [exact Hpre | apply c_content_app_prefix].
  - unfold mount_audit. by destruct Hother as [-> | [-> | ->]].
Qed.

Lemma mount_audit_allows_longer_source_witness :
  mount_audit (one_container POLICY_LEVEL_RESTRICTED
                 {[ 0%N := entry "/var/lib/containers" ]} ∅ ∅)
    (running 300 0) [] [] (Str (bytes "/var/lib/containers" ++ bytes "/foo"))
    (Str (bytes "bind")) 0 0 = 0.
Proof. apply mount_audit_allows_longer_source. vm_compute. reflexivity. Defined.

(** X18 — the verdict of [mount_audit] does not depend on what its two
    uninitialised stack buffers hold on entry. *)
Theorem mount_audit_stack_independent m cur ts ds ts' ds' dev_name type flags
    ret_prev :
  mount_audit m cur ts ds dev_name type flags ret_prev
  = mount_audit m cur ts' ds' dev_name type flags ret_prev.
Proof.
  destruct (mount_allowlist_cases m cur) as [[tbl Htbl] | Hother].
  - destruct type as [| |t]; destruct dev_name as [| |s];
      try (unfold mount_audit; destruct Htbl as [[-> _] | [-> _]];
           reflexivity).
    + unfold mount_audit. f_equal. rewrite !read_mount_type.
      pose proof (type_is_bind ts t) as H. pose proof (type_is_bind ts' t) as H'.
      rewrite read_mount_type in H, H'. cbn [snd] in H, H'.
      rewrite (bool_eq_of_iff
                 (strcmp (take 4 (c_content t) ++ NUL :: drop _ ts) _ _ =? 0)
                 (strcmp (take 4 (c_content t) ++ NUL :: drop _ ts') _ _ =? 0))
        by (rewrite !Z.eqb_eq, H, H'; done).
      by destruct Htbl as [[-> _] | [-> _]].
    + unfold mount_audit. f_equal. rewrite !read_mount_type.
      pose proof (type_is_bind ts t) as H. pose proof (type_is_bind ts' t) as H'.
      rewrite read_mount_type in H, H'. cbn [snd] in H, H'.
      rewrite (bool_eq_of_iff
                 (strcmp (take 4 (c_content t) ++ NUL :: drop _ ts) _ _ =? 0)
                 (strcmp (take 4 (c_content t) ++ NUL :: drop _ ts') _ _ =? 0))
        by (rewrite !Z.eqb_eq, H, H'; done).
      by destruct Htbl as [[-> _] | [-> _]].
    + rewrite !(mount_audit_readable m _ _ _ _ _ _ _ tbl Htbl). f_equal.
      rewrite (bool_eq_of_iff (strcmp (_ ts _ _).2 _ _ =? 0)
                 (strcmp (bpf_probe_read_kernel_str ts' MOUNT_TYPE_LEN (Str t)).2
                    (MOUNT_TYPE_BIND ++ [NUL]) MOUNT_TYPE_LEN =? 0))
        by (rewrite !Z.eqb_eq, !type_is_bind; done).
      rewrite (match_paths_rest_irrelevant tbl _ _
                 (drop (length (take (PATH_LEN - 1) (c_content s) ++ [NUL])) ds'))
        by apply take_no_NUL, c_content_no_NUL.
      done.
  - unfold mount_audit. by destruct Hother as [-> | [-> | ->]].
Qed.

(** X19 — only the first 63 bytes of [dev_name] count: two source paths
    that agree on them get the same verdict. *)
Theorem mount_audit_source_truncated m cur ts ds s s' type flags ret_prev :
  take 63 (c_content s) = take 63 (c_content s') →
  mount_audit m cur ts ds (Str s) type flags ret_prev
  = mount_audit m cur ts ds (Str s') type flags ret_prev.
Proof.
  intros H. unfold mount_audit, bpf_probe_read_kernel_str.
  change (PATH_LEN - 1)%nat with 63%nat. by rewrite H.
Qed.

Lemma mount_audit_source_truncated_witness :
  mount_audit (one_container POLICY_LEVEL_RESTRICTED
                 {[ 0%N := entry "/var/lib/containers" ]} ∅ ∅)
    (running 300 0) [] [] (Str (bytes long_path)) (Str (bytes "bind")) 0 0
  = mount_audit (one_container POLICY_LEVEL_RESTRICTED
                   {[ 0%N := entry "/var/lib/containers" ]} ∅ ∅)
      (running 300 0) [] [] (Str (bytes long_path ++ bytes "/x"))
      (Str (bytes "bind")) 0 0.
Proof. apply mount_audit_source_truncated. vm_compute. reflexivity. Defined.

(** X20 — faults of [mount_audit] for RESTRICTED and BASELINE callers: a
    type that cannot be read gives -EFAULT, and so does a bind mount whose
    source is NULL or cannot be read; each is folded with the previous
    verdict, and no table is looked at. *)
Theorem mount_audit_faults m cur ts ds dev_name t flags ret_prev :
  get_policy_level m (current_pid cur) = POLICY_LEVEL_RESTRICTED
  ∨ get_policy_level m (current_pid cur) = POLICY_LEVEL_BASELINE →
  mount_audit m cur ts ds dev_name Unreadable flags ret_prev
  = out ret_prev (- EFAULT)
  ∧ (take 4 (c_content t) = MOUNT_TYPE_BIND →
     mount_audit m cur ts ds NULL (Str t) flags ret_prev = out ret_prev (- EFAULT)
     ∧ mount_audit m cur ts ds Unreadable (Str t) flags ret_prev
       = out ret_prev (- EFAULT)).
Proof.
  intros Htier. split.
  - unfold mount_audit. by destruct Htier as [-> | ->].
  - intros Ht. apply (type_is_bind ts) in Ht. unfold mount_audit.
    rewrite read_mount_type in *. cbn [snd] in Ht. rewrite Ht.
    destruct (Z.ltb_spec (Z.of_nat (length (take 4 (c_content t)) + 1)) 0); [lia|].
    by destruct Htier as [-> | ->].
Qed.

Lemma mount_audit_faults_witness :
  mount_audit (one_container POLICY_LEVEL_BASELINE ∅ ∅ ∅) (running 300 0)
    [] [] (Str (bytes "/tmp")) Unreadable 0 0 = - EFAULT
  ∧ mount_audit (one_container POLICY_LEVEL_BASELINE ∅ ∅ ∅) (running 300 0)
      [] [] NULL (Str (bytes "bind")) 0 0 = - EFAULT.
Proof.
  split.
  - apply (proj1 (mount_audit_faults (one_container POLICY_LEVEL_BASELINE ∅ ∅ ∅)
                    (running 300 0) [] [] (Str (bytes "/tmp")) [] 0 0
                    (or_intror eq_refl))).
  - apply (proj1 (proj2 (mount_audit_faults
                           (one_container POLICY_LEVEL_BASELINE ∅ ∅ ∅)
                           (running 300 0) [] [] NULL (bytes "bind") 0 0
                           (or_intror eq_refl)) eq_refl)).
Defined.

(** ** Verdicts across the four programs *)

(** X21 — fail closed: a caller whose process row names a container that
    has no row is refused (-EPERM, folded with the previous verdict) by
    syslog, mount and open whatever the call, and by setuid once the command
    name is read. *)
Theorem lookup_error_is_refused m cur p :
  processes m !! current_pid cur = Some p →
  containers m !! container_id p = None →
  (∀ type ret_prev, syslog_audit m cur type ret_prev = out ret_prev (- EPERM))
  ∧ (∀ ts ds dev_name type flags ret_prev,
       mount_audit m cur ts ds dev_name type flags ret_prev
       = out ret_prev (- EPERM))
  ∧ (∀ f ret_prev, open_audit m cur f ret_prev = out ret_prev (- EPERM))
  ∧ (0 ≤ get_current_comm cur →
     ∀ new old flags ret_prev,
       setuid_audit m cur new old flags ret_prev = out ret_prev (- EPERM)).
Proof.
  intros Hp Hc.
  assert (get_policy_level m (current_pid cur) = POLICY_LEVEL_LOOKUP_ERR) as Hlvl.
  { unfold get_policy_level. by rewrite Hp, Hc. }
  unfold syslog_audit, mount_audit, open_audit, setuid_audit. rewrite Hlvl.
  repeat split; try done.
  intros Hcomm new old flags ret_prev.
  by destruct (Z.ltb_spec (get_current_comm cur) 0); [lia|].
Qed.

Lemma lookup_error_is_refused_witness :
  mount_audit orphaned (running 100 0) [] [] (Str (bytes "/tmp"))
    (Str (bytes "tmpfs")) 0 0 = - EPERM.
Proof.
  apply (proj1 (proj2 (lookup_error_is_refused orphaned (running 100 0)
                         {| container_id := 7%N |} eq_refl eq_refl))).
Defined.

(** X22 — the verdicts the programs can produce themselves: with previous
    verdict 0, syslog and open return 0 or -EPERM, mount and setuid return 0,
    -EPERM or -EFAULT, and nothing else. *)
Theorem own_verdicts m cur :
  (∀ type, syslog_audit m cur type 0 ∈ [0; - EPERM])
  ∧ (∀ ts ds dev_name type flags,
       mount_audit m cur ts ds dev_name type flags 0 ∈ [0; - EPERM; - EFAULT])
  ∧ (∀ f, open_audit m cur f 0 ∈ [0; - EPERM])
  ∧ (∀ new old flags,
       setuid_audit m cur new old flags 0 ∈ [0; - EPERM; - EFAULT]).
Proof.
  split; [|split; [|split]].
  - intros type. unfold syslog_audit.
    destruct (get_policy_level m (current_pid cur)); cbn; set_solver.
  - intros ts ds dev_name type flags.
    destruct (mount_allowlist_cases m cur) as [[tbl Htbl] | Hother].
    + destruct type as [| |t]; destruct dev_name as [| |s];
        try (unfold mount_audit; destruct Htbl as [[-> _] | [-> _]];
             try rewrite read_mount_type;
             repeat (match goal with |- context [if ?b then _ else _] =>
                       destruct b end);
             cbn; set_solver).
      rewrite (mount_audit_readable m _ _ _ _ _ _ _ tbl Htbl).
      repeat (match goal with |- context [if ?b then _ else _] =>
                destruct b end); cbn; set_solver.
    + unfold mount_audit. destruct Hother as [-> | [-> | ->]]; cbn; set_solver.
  - intros f. unfold open_audit.
    destruct (get_policy_level m (current_pid cur));
      try (cbn; set_solver);
      destruct (bpf_d_path (f_path f) (repeat NUL PATH_LEN) PATH_LEN) as [r buf];
      repeat (match goal with |- context [if ?b then _ else _] =>
                destruct b end); cbn; set_solver.
  - intros new old flags. unfold setuid_audit.
    destruct (get_current_comm cur <? 0); [set_solver|].
    destruct (get_policy_level m (current_pid cur));
      repeat (match goal with |- context [if ?b then _ else _] =>
                destruct b end); cbn; set_solver.
Qed.

(** X27 — where the stacking law holds: a non-zero previous verdict is
    returned unchanged by syslog, mount and open on every call, and by
    setuid once the command name is read. *)
Theorem previous_verdict_wins m cur ret_prev :
  ret_prev ≠ 0 →
  (∀ type, syslog_audit m cur type ret_prev = ret_prev)
  ∧ (∀ ts ds dev_name type flags,
       mount_audit m cur ts ds dev_name type flags ret_prev = ret_prev)
  ∧ (∀ f, open_audit m cur f ret_prev = ret_prev)
  ∧ (0 ≤ get_current_comm cur →
     ∀ new old flags, setuid_audit m cur new old flags ret_prev = ret_prev).
Proof.
  intros Hprev. repeat split; intros.
  - by rewrite syslog_audit_stacking, out_prev.
  - by rewrite mount_audit_stacking, out_prev.
  - by rewrite open_audit_stacking, out_prev.
  - by rewrite setuid_audit_stacking, out_prev.
Qed.

Lemma previous_verdict_wins_witness :
  open_audit (one_container POLICY_LEVEL_PRIVILEGED ∅ ∅ ∅) (running 300 0)
    {| f_path := Some (bytes "/etc/shadow") |} (-13) = -13.
Proof.
  apply (proj1 (proj2 (proj2 (previous_verdict_wins
                                (one_container POLICY_LEVEL_PRIVILEGED ∅ ∅ ∅)
                                (running 300 0) (-13) ltac:(lia))))).
Defined.

(** X28 — where the passthrough holds: a caller of a PRIVILEGED container,
    or without a row in [processes], is allowed by syslog, mount and open
    whatever the call and the path tables, and by setuid once the command
    name is read. *)
Theorem privileged_and_host_pass m cur :
  get_policy_level m (current_pid cur) = POLICY_LEVEL_PRIVILEGED
  ∨ processes m !! current_pid cur = None →
  (∀ type, syslog_audit m cur type 0 = 0)
  ∧ (∀ ts ds dev_name type flags,
       mount_audit m cur ts ds dev_name type flags 0 = 0)
  ∧ (∀ f, open_audit m cur f 0 = 0)
  ∧ (0 ≤ get_current_comm cur →
     ∀ new old flags, setuid_audit m cur new old flags 0 = 0).
Proof.
  intros H. repeat split; intros.
  - by apply syslog_audit_passthrough.
  - by apply mount_audit_passthrough.
  - by apply open_audit_passthrough.
  - by apply setuid_audit_passthrough.
Qed.

Lemma privileged_and_host_pass_witness :
  mount_audit (one_container POLICY_LEVEL_PRIVILEGED ∅ ∅ ∅) (running 300 0)
    [] [] (Str (bytes "/etc/shadow")) (Str (bytes "bind")) 0 0 = 0
  ∧ open_audit (one_container POLICY_LEVEL_RESTRICTED ∅ ∅ ∅) (running 1 0)
      {| f_path := Some (bytes "/etc/shadow") |} 0 = 0.
Proof.
  split.
  - apply (proj1 (proj2 (privileged_and_host_pass
                           (one_container POLICY_LEVEL_PRIVILEGED ∅ ∅ ∅)
                           (running 300 0) (or_introl eq_refl)))).
  - apply (proj1 (proj2 (proj2 (privileged_and_host_pass
                                  (one_container POLICY_LEVEL_RESTRICTED ∅ ∅ ∅)
                                  (running 1 0) (or_intror eq_refl))))).
Defined.

(** ** open: the cases decided without a table *)

Lemma open_audit_restricted_denies_witness :
  open_audit (one_container POLICY_LEVEL_RESTRICTED ∅ {[ 0%N := entry "/tmp" ]} ∅)
    (running 300 0) {| f_path := Some (bytes "/tmp/x") |} 0 = - EPERM.
Proof.
  apply (open_audit_restricted_denies
           (one_container POLICY_LEVEL_RESTRICTED ∅ {[ 0%N := entry "/tmp" ]} ∅)
           (running 300 0) (bytes "/tmp/x") 0).
  - reflexivity.
  - vm_compute. lia.
  - vm_compute. discriminate.
Defined.

Lemma open_audit_baseline_rule_witness :
  open_audit (one_container POLICY_LEVEL_BASELINE ∅ {[ 0%N := entry "/tmp" ]}
                {[ 0%N := entry "/tmp/secret" ]})
    (running 300 0) {| f_path := Some (bytes "/tmp/secret/key") |} 0 = - EPERM
  ∧ open_audit (one_container POLICY_LEVEL_BASELINE ∅ {[ 0%N := entry "/tmp" ]}
                  {[ 0%N := entry "/tmp/secret" ]})
      (running 300 0) {| f_path := Some (bytes "/tmp/x") |} 0 = 0.
Proof.
  split.
  - apply (proj1 (open_audit_baseline_rule
                    (one_container POLICY_LEVEL_BASELINE ∅
                       {[ 0%N := entry "/tmp" ]} {[ 0%N := entry "/tmp/secret" ]})
                    (running 300 0) (bytes "/tmp/secret/key") 0 eq_refl
                    ltac:(vm_compute; lia) ltac:(vm_compute; discriminate))).
    exists 0%N, (entry "/tmp/secret"). split; [apply lookup_singleton_eq|].
    split; [vm_compute; lia|]. exists (bytes "/key"). reflexivity.
  - apply (proj1 (proj2 (open_audit_baseline_rule
                    (one_container POLICY_LEVEL_BASELINE ∅
                       {[ 0%N := entry "/tmp" ]} {[ 0%N := entry "/tmp/secret" ]})
                    (running 300 0) (bytes "/tmp/x") 0 eq_refl
                    ltac:(vm_compute; lia) ltac:(vm_compute; discriminate)))).
    + intros (k & E & Hk & _ & [r Hr]).
      unfold one_container in Hk. cbn [dp_acc_base] in Hk.
      apply lookup_singleton_Some in Hk as [_ <-].
      vm_compute in Hr. discriminate.
    + exists 0%N, (entry "/tmp"). split; [apply lookup_singleton_eq|].
      split; [vm_compute; lia|]. exists (bytes "/x"). reflexivity.
Defined.

(** X23 — the root directory is always allowed: for a RESTRICTED or
    BASELINE process an open of "/" gets 0 (folded with the previous verdict)
    whatever the allow and deny lists hold. *)
Theorem open_audit_root_allowed m cur s ret_prev :
  get_policy_level m (current_pid cur) = POLICY_LEVEL_RESTRICTED
  ∨ get_policy_level m (current_pid cur) = POLICY_LEVEL_BASELINE →
  c_content s = bytes "/" →
  open_audit m cur {| f_path := Some s |} ret_prev = out ret_prev 0.
Proof.
  intros Htier Hroot. unfold open_audit. f_equal. cbn [f_path].
  rewrite read_d_path by (rewrite Hroot; cbn; unfold PATH_LEN; lia).
  destruct (Z.ltb_spec (Z.of_nat (length (c_content s) + 1)) 0); [lia|].
  rewrite (proj2 (path_is_root s _) Hroot).
  by destruct Htier as [-> | ->].
Qed.

Lemma open_audit_root_allowed_witness :
  open_audit (one_container POLICY_LEVEL_BASELINE ∅ ∅ {[ 0%N := entry "/" ]})
    (running 300 0) {| f_path := Some (bytes "/") |} 0 = 0.
Proof.
  apply (open_audit_root_allowed
           (one_container POLICY_LEVEL_BASELINE ∅ ∅ {[ 0%N := entry "/" ]})
           (running 300 0) (bytes "/") 0 (or_intror eq_refl) eq_refl).
Defined.

(** X24 — [open_audit] fails open: when the path cannot be rendered, or
    does not fit the 64-byte buffer with its NUL (63 bytes at most do), a
    RESTRICTED or BASELINE process is allowed, whatever the lists hold. *)
Theorem open_audit_unresolved_allowed m cur f ret_prev :
  get_policy_level m (current_pid cur) = POLICY_LEVEL_RESTRICTED
  ∨ get_policy_level m (current_pid cur) = POLICY_LEVEL_BASELINE →
  f_path f = None
  ∨ (∃ s, f_path f = Some s ∧ (PATH_LEN ≤ length (c_content s))%nat) →
  open_audit m cur f ret_prev = out ret_prev 0.
Proof.
  intros Htier Hpath. unfold open_audit. f_equal.
  assert ((bpf_d_path (f_path f) (repeat NUL PATH_LEN) PATH_LEN).1 < 0) as Hr.
  { destruct Hpath as [-> | (s & -> & Hlen)]; unfold bpf_d_path; [done|].
    by destruct (Nat.ltb_spec PATH_LEN (length (c_content s) + 1)); [|lia]. }
  destruct (bpf_d_path (f_path f) (repeat NUL PATH_LEN) PATH_LEN) as [r buf].
  cbn [fst] in Hr. destruct (Z.ltb_spec r 0); [|lia].
  by destruct Htier as [-> | ->].
Qed.

Lemma open_audit_unresolved_allowed_witness :
  open_audit (one_container POLICY_LEVEL_BASELINE ∅ ∅
                {[ 0%N := entry "/var/lib" ]})
    (running 300 0) {| f_path := Some (bytes long_path) |} 0 = 0.
Proof.
  apply (open_audit_unresolved_allowed
           (one_container POLICY_LEVEL_BASELINE ∅ ∅ {[ 0%N := entry "/var/lib" ]})
           (running 300 0) {| f_path := Some (bytes long_path) |} 0
           (or_intror eq_refl)).
  right. exists (bytes long_path). split; [reflexivity | vm_compute; lia].
Defined.
